(** * flask-research-ai: the content-acquisition pipeline of [app.py]

    A shallow embedding of [src/app.py] and the properties of its
    specification.  Python strings are sequences of Unicode code points,
    Python integers are [Z], untyped service payloads are a small value
    type, and calls to the outside world (the extraction service, the
    scraper, the local fetcher, the completion endpoint) are answers of an
    environment that may depend on the whole history of earlier calls. *)

From Stdlib Require Import ZArith NArith List Lia Bool String Ascii.
From stdpp Require Import base tactics list gmap.

Set Warnings "-register-all".

Local Open Scope Z_scope.
Local Open Scope list_scope.

(** ** Python strings *)

Module Py.

(** A [str] is a sequence of code points; [len] counts code points, as
    Python's does. *)
Definition char := N.
Definition str := list N.

Definition lit (s : string) : str := List.map N_of_ascii (list_ascii_of_string s).

Definition nl : str := [10%N].
Definition dquote : char := 34%N.
Definition apostrophe : char := 39%N.
Definition hyphen : char := 45%N.
Definition en_dash : char := 8211%N.
Definition em_dash : char := 8212%N.
Definition minus_sign : char := 8722%N.
Definition lsquo : char := 8216%N.
Definition rsquo : char := 8217%N.
Definition ldquo : char := 8220%N.
Definition rdquo : char := 8221%N.
Definition ellipsis : char := 8230%N.

(** Truth value of a string: [bool(s)], false exactly for the empty one. *)
Definition truthy (s : str) : bool :=
  match s with [] => false | _ :: _ => true end.

(** [a or b] on strings. *)
Definition or_str (a b : str) : str := if truthy a then a else b.

(** [c.isspace()], the set [str.strip()] and the [\s] of [re] use. *)
Definition isspace (c : char) : bool :=
  ((9 <=? c) && (c <=? 13) || (28 <=? c) && (c <=? 32)
   || (c =? 133) || (c =? 160) || (c =? 5760)
   || (8192 <=? c) && (c <=? 8202)
   || (c =? 8232) || (c =? 8233) || (c =? 8239) || (c =? 8287)
   || (c =? 12288))%N.

Definition in_chars (set : str) (c : char) : bool :=
  existsb (N.eqb c) set.

Fixpoint lstrip (p : char -> bool) (s : str) : str :=
  match s with
  | [] => []
  | c :: r => if p c then lstrip p r else s
  end.

Definition rstrip (p : char -> bool) (s : str) : str :=
  rev (lstrip p (rev s)).

(** [s.strip()] is [strip isspace s]; [s.strip(chars)] is
    [strip (in_chars chars) s]. *)
Definition strip (p : char -> bool) (s : str) : str :=
  rstrip p (lstrip p s).

(** Whether the first, or the last, character of [s] satisfies [p]. *)
Definition starts_with (p : char -> bool) (s : str) : bool :=
  match s with
  | [] => false
  | c :: _ => p c
  end.

Definition ends_with (p : char -> bool) (s : str) : bool :=
  starts_with p (rev s).

(** [s.replace(old, new)] for one-character [old] and [new]. *)
Definition replace1 (old new : char) (s : str) : str :=
  List.map (fun c => if (c =? old)%N then new else c) s.

(** [l[:n]] for any integer [n]: a negative bound counts from the end. *)
Definition slice_to {A} (n : Z) (l : list A) : list A :=
  if 0 <=? n then firstn (Z.to_nat n) l
  else firstn (Z.to_nat (Z.of_nat (length l) + n)) l.

Definition len {A} (l : list A) : Z := Z.of_nat (length l).

(** [re.split(pattern, s)] for a pattern matching maximal runs of the
    characters in [sep]: the fields between the runs, empty fields at
    either end included. *)
Fixpoint re_split_runs (sep : char -> bool) (s cur : str) (in_run : bool)
  : list str :=
  match s with
  | [] => [rev cur]
  | c :: r =>
      if sep c then
        if in_run then re_split_runs sep r [] true
        else rev cur :: re_split_runs sep r [] true
      else re_split_runs sep r (c :: cur) false
  end.

Definition re_split (sep : char -> bool) (s : str) : list str :=
  re_split_runs sep s [] false.

(** [sep.join(parts)]. *)
Fixpoint join (sep : str) (parts : list str) : str :=
  match parts with
  | [] => []
  | [p] => p
  | p :: rest => p ++ sep ++ join sep rest
  end.

(** [str(i)] for a non-negative integer. *)
Definition digit_char (d : N) : char := (48 + d)%N.

Fixpoint decimal_pos (fuel : nat) (n : N) (acc : str) : str :=
  match fuel with
  | O => acc
  | S fuel' =>
      let acc' := digit_char (n mod 10) :: acc in
      if (n <? 10)%N then acc' else decimal_pos fuel' (n / 10) acc'
  end.

Definition str_of_nat (i : nat) : str :=
  decimal_pos (S i) (N.of_nat i) [].

End Py.

Import Py.

(** ** Helpers of app.py *)

Definition comma : char := 44%N.
Definition underscore : char := 95%N.

(** [sanitize_filename].  [str.isalnum] is a table of the Unicode
    database; it is taken as the parameter [isalnum]. *)
Definition keep_char (isalnum : char -> bool) (c : char) : bool :=
  isalnum c || in_chars (lit "-_.") c.

Definition sanitize_filename (isalnum : char -> bool) (name : str) : str :=
  or_str
    (List.map (fun c => if keep_char isalnum c then c else underscore)
       (strip isspace name))
    (lit "report").

(** [parse_urls_csv]: split on runs of commas and whitespace, drop the
    empty fields. *)
Definition is_sep (c : char) : bool := (c =? comma)%N || isspace c.

Definition parse_urls_csv (s : str) : list str :=
  List.filter truthy (re_split is_sep (strip isspace s)).

Definition quote_chars : str :=
  [lsquo; rsquo; ldquo; rdquo; dquote; apostrophe].

Definition is_quote (c : char) : bool := in_chars quote_chars c.

Definition replace_dashes (s : str) : str :=
  replace1 minus_sign hyphen (replace1 em_dash hyphen (replace1 en_dash hyphen s)).

Definition normalize_url (u : str) : str :=
  let s := strip is_quote (strip isspace u) in
  replace_dashes s.

(** ** Untyped payloads

    What the remote services answer: [None], a string, a list, a mapping
    with string keys, or some other object (a number, a boolean, ...) of
    which the code only ever asks the truth value. *)

Inductive value :=
  | VNone
  | VStr (s : str)
  | VList (l : list value)
  | VDict (d : gmap str value)
  | VOther (truth : bool).

Definition dict := gmap str value.

Definition truthy_v (v : value) : bool :=
  match v with
  | VNone => false
  | VStr s => truthy s
  | VList l => match l with [] => false | _ => true end
  | VDict d => negb (bool_decide (d = ∅))
  | VOther b => b
  end.

(** [a or b]. *)
Definition or_v (a b : value) : value := if truthy_v a then a else b.

(** [d.get(k)], [None] when the key is absent. *)
Definition get (d : dict) (k : string) : value :=
  default VNone (d !! lit k).

(** ** Exceptions, calls and their history *)

Inductive exn :=
  | RuntimeError (msg : str)
  | AttributeError
  | ValueError
  | ServiceError (code : N).

Inductive result (A : Type) :=
  | Ok (a : A)
  | Raise (e : exn).
Arguments Ok {A} a.
Arguments Raise {A} e.

(** Every call that leaves the process, in the order it is made. *)
Inductive event :=
  | EvExtract (urls : list str)
  | EvScrape (url : str)
  | EvFetchUrl (url : str)
  | EvTrafExtract (downloaded url : str)
  | EvTrafMetadata (downloaded : str)
  | EvCompletion (model prompt : str).

Definition history := list event.

(** What [trafilatura.extract_metadata] hands back: nothing, a mapping,
    or a document object whose [title] attribute may be missing. *)
Inductive metadata :=
  | MetaNone
  | MetaDict (d : dict)
  | MetaObj (title : option value).

(** The process environment and the collaborators.  An answer may depend
    on every call made before it, so nothing is assumed about a service
    asked twice for the same address. *)
Record Env := {
  FIRECRAWL_API_KEY : option str;
  OPENAI_API_KEY : option str;
  fc_extract : history -> list str -> result value;
  fc_scrape : history -> str -> result value;
  trafilatura_fetch_url : history -> str -> result (option str);
  trafilatura_extract : history -> str -> str -> result (option str);
  trafilatura_extract_metadata : history -> str -> result metadata;
  responses_create : history -> str -> str -> result str;
  urlparse_netloc : str -> result str;
  py_str : value -> str;
  md_markdown : str -> str
}.

(** Computations that may raise and that extend the history of calls. *)
Definition M (A : Type) : Type := history -> result A * history.

Definition ret {A} (a : A) : M A := fun h => (Ok a, h).

Definition raise {A} (e : exn) : M A := fun h => (Raise e, h).

Definition bind {A B} (m : M A) (k : A -> M B) : M B :=
  fun h =>
    match m h with
    | (Ok a, h') => k a h'
    | (Raise e, h') => (Raise e, h')
    end.

(** [try: m  except Exception: handler]. *)
Definition try_except {A} (m : M A) (handler : exn -> M A) : M A :=
  fun h =>
    match m h with
    | (Ok a, h') => (Ok a, h')
    | (Raise e, h') => handler e h'
    end.

(** A call to a collaborator: answered from the history so far, then
    recorded. *)
Definition call {A} (answer : history -> result A) (ev : event) : M A :=
  fun h => (answer h, h ++ [ev]).

Definition lift {A} (r : result A) : M A := fun h => (r, h).

Declare Scope monad_scope.
Delimit Scope monad_scope with M.
Notation "x <- m ;; k" := (bind m (fun x => k))
  (at level 100, m at level 99, right associativity) : monad_scope.
Local Open Scope monad_scope.

(** [v.strip()]: only strings have the method. *)
Definition strip_v (v : value) : result str :=
  match v with
  | VStr s => Ok (strip isspace s)
  | _ => Raise AttributeError
  end.

(** ** The helpers [origin] and the page record *)

Definition origin (env : Env) (url : str) : str :=
  match urlparse_netloc env url with
  | Ok netloc => or_str netloc url
  | Raise _ => url
  end.

(** A page is the dict [{"url": .., "title": .., "text": ..}]. *)
Definition page := gmap str str.

Definition mk_page (url title text : str) : page :=
  <[lit "url" := url]> (<[lit "title" := title]> (<[lit "text" := text]> ∅)).

(** [it.get(k, "")]. *)
Definition field (it : page) (k : string) : str :=
  default [] (it !! lit k).

(** ** The extraction-service adapter: [firecrawl_fetch_pages_with_extract] *)

Definition missing_firecrawl_key : exn :=
  RuntimeError (lit "FIRECRAWL_API_KEY missing in .env").

(** [not key] for the result of [os.getenv]. *)
Definition key_missing (k : option str) : bool :=
  match k with
  | None => true
  | Some s => negb (truthy s)
  end.

Definition as_row (env : Env) (r : value) : dict :=
  match r with
  | VDict d => d
  | _ => {[ lit "url" := VStr (py_str env r) ]}
  end.

Definition as_row_or_empty (r : value) : dict :=
  match r with
  | VDict d => d
  | _ => ∅
  end.

(** The rows of an [extract] answer: a bare list, or the list under the
    first of [data], [results], [result] that holds one. *)
Definition rows_of (env : Env) (res : value) : list dict :=
  match res with
  | VList l => List.map (as_row env) l
  | VDict d =>
      match get d "data" with
      | VList l => List.map as_row_or_empty l
      | _ =>
          match get d "results" with
          | VList l => List.map as_row_or_empty l
          | _ =>
              match get d "result" with
              | VList l => List.map as_row_or_empty l
              | _ => []
              end
          end
      end
  | _ => []
  end.

(** The inner function [_append_if_text], with the list [items] it closes
    over passed in and out; the boolean is its return value. *)
Definition _append_if_text (env : Env) (per_page_char_limit : Z)
    (items : list page) (url title : str) (text : value)
  : result (bool * list page) :=
  match strip_v (or_v text (VStr [])) with
  | Raise e => Raise e
  | Ok text =>
      if truthy url && truthy text then
        Ok (true,
            items ++ [mk_page url
                        (or_str (strip isspace (or_str title [])) (origin env url))
                        (slice_to per_page_char_limit text
                           ++ (if len text >? per_page_char_limit
                               then [ellipsis] else []))])
      else Ok (false, items)
  end.

(** Body text of a row of the batch answer. *)
Definition row_text (row : dict) : value :=
  or_v (get row "markdown")
    (or_v (get row "content")
       (or_v (get row "text")
          (or_v (get row "html") (VStr [])))).

(** Body text of the answer to a single-page scrape. *)
Definition scrape_text (data : dict) : value :=
  or_v (get data "content")
    (or_v (get data "markdown")
       (or_v (get data "text")
          (or_v (get data "html") (VStr [])))).

Definition row_url (row : dict) : result str :=
  strip_v (or_v (get row "url")
             (or_v (get row "sourceUrl")
                (or_v (get row "link")
                   (or_v (get row "pageUrl") (VStr []))))).

Definition row_title (row : dict) : result str :=
  strip_v (or_v (get row "title") (VStr [])).

(** The [data] mapping of a scrape answer: the nested [data] mapping if
    there is one, else the answer itself, else the empty mapping. *)
Definition scrape_data (s : value) : dict :=
  let d := match s with VDict d => d | _ => ∅ end in
  match get d "data" with
  | VDict inner => inner
  | _ => d
  end.

(** The per-URL fallback: everything inside the [try] of the loop body.
    Whatever is raised there is caught and the row is skipped. *)
Definition scrape_fallback (env : Env) (per_page_char_limit : Z)
    (items : list page) (url title : str) : M (list page) :=
  try_except
    (s <- call (fun h => fc_scrape env h url) (EvScrape url) ;;
     let data := scrape_data s in
     title2 <- lift (strip_v (or_v (get data "title")
                                (or_v (VStr title) (VStr [])))) ;;
     r <- lift (_append_if_text env per_page_char_limit items url title2
                  (scrape_text data)) ;;
     ret (snd r))
    (fun _ => ret items).

(** One turn of [for row in rows]. *)
Definition process_row (env : Env) (per_page_char_limit : Z)
    (items : list page) (row : dict) : M (list page) :=
  url <- lift (row_url row) ;;
  title <- lift (row_title row) ;;
  r <- lift (_append_if_text env per_page_char_limit items url title
               (row_text row)) ;;
  if fst r then ret (snd r)
  else if truthy url then
    scrape_fallback env per_page_char_limit items url title
  else ret items.

Fixpoint for_rows (env : Env) (per_page_char_limit : Z)
    (rows : list dict) (items : list page) : M (list page) :=
  match rows with
  | [] => ret items
  | row :: rest =>
      items' <- process_row env per_page_char_limit items row ;;
      for_rows env per_page_char_limit rest items'
  end.

Definition firecrawl_fetch_pages_with_extract (env : Env) (topic : str)
    (urls : list str) (per_page_char_limit : Z) : M (list page) :=
  if key_missing (FIRECRAWL_API_KEY env) then raise missing_firecrawl_key
  else
    match urls with
    | [] => ret []
    | _ =>
        res <- try_except
                 (call (fun h => fc_extract env h urls) (EvExtract urls))
                 (fun _ => ret VNone) ;;
        for_rows env per_page_char_limit (rows_of env res) []
    end.

(** ** The synthesizer: [enhance_with_openai] *)

Definition missing_openai_key : exn :=
  RuntimeError (lit "OPENAI_API_KEY missing in .env").

(** The block [f"[{i}] {title} — {url}\n{text}\n"]. *)
Definition corpus_block (i : nat) (title url text : str) : str :=
  lit "[" ++ str_of_nat i ++ lit "] " ++ title
    ++ lit " " ++ [em_dash] ++ lit " " ++ url ++ nl ++ text ++ nl.

(** [for i, it in enumerate(items, 1)], started at index [i]. *)
Fixpoint corpus_loop (env : Env) (i : nat) (items : list page) : list str :=
  match items with
  | [] => []
  | it :: rest =>
      let url := field it "url" in
      let title := or_str (field it "title") (origin env url) in
      let text := field it "text" in
      if truthy url && truthy text
      then corpus_block i title url text :: corpus_loop env (S i) rest
      else corpus_loop env (S i) rest
  end.

Definition corpus_lines (env : Env) (items : list page) : list str :=
  corpus_loop env 1 items.

Definition corpus_of (lines : list str) : str :=
  match lines with
  | [] => lit "No pages scraped."
  | _ => join nl lines
  end.

Definition prompt_of (topic corpus : str) : str :=
  nl ++ lit "You are an expert research writer." ++ nl
  ++ nl
  ++ lit "TOPIC:" ++ nl
  ++ topic ++ nl
  ++ nl
  ++ lit "CORPUS (numbered sources follow the format " ++ [dquote]
  ++ lit "[n] title " ++ [em_dash] ++ lit " url" ++ [dquote] ++ lit "):" ++ nl
  ++ corpus ++ nl
  ++ nl
  ++ lit "TASK:" ++ nl
  ++ lit "1) Produce a clear, well-structured research report on the topic." ++ nl
  ++ lit "2) Include: overview, key findings, important concepts, examples/case studies, current trends, risks/limitations, and a short future outlook." ++ nl
  ++ lit "3) Use inline citations like [1], [2] that refer to the numbered sources above." ++ nl
  ++ lit "4) End with a " ++ [dquote] ++ lit "References" ++ [dquote]
  ++ lit " section listing the source number, title (or domain), and URL." ++ nl
  ++ nl
  ++ lit "Keep it factual, concise, and readable. If any claims are speculative, mark them as such." ++ nl.

Definition model_name : str := lit "gpt-4.1-mini".

Definition enhance_with_openai (env : Env) (topic : str) (items : list page)
  : M str :=
  if key_missing (OPENAI_API_KEY env) then raise missing_openai_key
  else
    let corpus := corpus_of (corpus_lines env items) in
    let prompt := prompt_of topic corpus in
    call (fun h => responses_create env h model_name prompt)
         (EvCompletion model_name prompt).

(** ** The local adapter: [direct_fetch_pages_with_trafilatura] *)

Definition truthy_o (o : option str) : bool :=
  match o with
  | None => false
  | Some s => truthy s
  end.

(** The title read off the metadata, [""] when there is none. *)
Definition meta_title (meta : metadata) : result str :=
  match meta with
  | MetaNone => Ok []
  | MetaDict d =>
      if bool_decide (d = ∅) then Ok []
      else strip_v (default (VStr []) (d !! lit "title"))
  | MetaObj t =>
      strip_v (or_v (default (VStr []) t) (VStr []))
  end.

(** One turn of [for url in urls]: the body of the [try], with whatever
    it raises caught and the address skipped. *)
Definition direct_one (env : Env) (per_page_char_limit : Z)
    (items : list page) (url : str) : M (list page) :=
  try_except
    (downloaded <- call (fun h => trafilatura_fetch_url env h url)
                     (EvFetchUrl url) ;;
     if negb (truthy_o downloaded) then ret items
     else
       let downloaded := default [] downloaded in
       text <- call (fun h => trafilatura_extract env h downloaded url)
                 (EvTrafExtract downloaded url) ;;
       if negb (truthy_o text) then ret items
       else
         let text := default [] text in
         meta <- call (fun h => trafilatura_extract_metadata env h downloaded)
                   (EvTrafMetadata downloaded) ;;
         title <- lift (meta_title meta) ;;
         if truthy text then
           ret (items ++ [mk_page url
                            (or_str title (origin env url))
                            (slice_to per_page_char_limit text
                               ++ (if len text >? per_page_char_limit
                                   then [ellipsis] else []))])
         else ret items)
    (fun _ => ret items).

Fixpoint direct_loop (env : Env) (per_page_char_limit : Z)
    (urls : list str) (items : list page) : M (list page) :=
  match urls with
  | [] => ret items
  | url :: rest =>
      items' <- direct_one env per_page_char_limit items url ;;
      direct_loop env per_page_char_limit rest items'
  end.

Definition direct_fetch_pages_with_trafilatura (env : Env)
    (urls : list str) (per_page_char_limit : Z) : M (list page) :=
  direct_loop env per_page_char_limit urls [].

(** ** The route [research] *)

(** The submitted form.  [max_urls] and [per_page_limit] are what
    [int(field or default)] evaluates to, an exception when the field is
    not a number. *)
Record Form := {
  form_topic : str;
  form_urls : str;
  form_max_urls : result Z;
  form_per_page_limit : result Z
}.

Inductive response :=
  | RedirectIndex (flashed : str)
  | RenderResult (topic report_html report_md : str).

Definition default_urls : list str :=
  [ lit "https://openai.com/blog";
    lit "https://huggingface.co/blog";
    lit "https://ai.googleblog.com/";
    lit "https://www.deeplearning.ai/the-batch/";
    lit "https://arxiv.org/list/cs.AI/recent";
    lit "https://www.anthropic.com/news" ].

Definition no_topic_msg : str := lit "Please enter a topic.".
Definition no_content_msg : str :=
  lit "Could not scrape any content. Try different article URLs.".

Definition request_urls (urls_csv : str) (max_urls : Z) : list str :=
  let urls_override := List.map normalize_url (parse_urls_csv urls_csv) in
  match urls_override with
  | [] => slice_to max_urls default_urls
  | _ => slice_to max_urls urls_override
  end.

Definition is_nil {A} (l : list A) : bool :=
  match l with [] => true | _ => false end.

(** The acquisition part of the route: the first tier, then the local
    one when the first came back empty. *)
Definition acquire (env : Env) (topic : str) (urls : list str)
    (per_page_limit : Z) : M (list page) :=
  items <- firecrawl_fetch_pages_with_extract env topic urls per_page_limit ;;
  if is_nil items
  then direct_fetch_pages_with_trafilatura env urls per_page_limit
  else ret items.

Definition research (env : Env) (form : Form) : M response :=
  let topic := strip isspace (form_topic form) in
  let urls_csv := strip isspace (form_urls form) in
  max_urls <- lift (form_max_urls form) ;;
  per_page_limit <- lift (form_per_page_limit form) ;;
  if negb (truthy topic) then ret (RedirectIndex no_topic_msg)
  else
    let urls := request_urls urls_csv max_urls in
    items <- acquire env topic urls per_page_limit ;;
    if is_nil items then ret (RedirectIndex no_content_msg)
    else
      report <- enhance_with_openai env topic items ;;
      let report_md := lit "## Enhanced Research Report" ++ nl ++ nl ++ report in
      let report_html := md_markdown env report_md in
      ret (RenderResult topic report_html report_md).

(** ** Vocabulary of the specification *)

Definition url_of (it : page) : str := field it "url".
Definition text_of (it : page) : str := field it "text".



(** The truncation rule in the specification's words: the first
    [min(L, B)] characters, then one marker when [L > B]. *)
Definition truncated (B : Z) (t : str) : str :=
  firstn (Z.to_nat (Z.min (len t) B)) t
    ++ (if B <? len t then [ellipsis] else []).

(** Whether the synthesizer includes an item in the corpus, and the
    block it writes for item number [i]. *)
Definition included (it : page) : bool :=
  truthy (field it "url") && truthy (field it "text").

Definition block_of (env : Env) (i : nat) (it : page) : str :=
  corpus_block i (or_str (field it "title") (origin env (field it "url")))
    (field it "url") (field it "text").

(** The answer the adapter works with after the batch call: the
    service's, or [None] when the call raised. *)
Definition extract_answer (env : Env) (h : history) (urls : list str) : value :=
  match fc_extract env h urls with
  | Ok v => v
  | Raise _ => VNone
  end.

(** Projections of a history. *)
Definition fetched (h : history) : list str :=
  omap (fun e => match e with EvFetchUrl u => Some u | _ => None end) h.

Definition is_completion (e : event) : bool :=
  match e with EvCompletion _ _ => true | _ => false end.

Definition is_remote (e : event) : bool :=
  match e with EvExtract _ | EvScrape _ => true | _ => false end.

Definition is_local (e : event) : bool :=
  match e with
  | EvFetchUrl _ | EvTrafExtract _ _ | EvTrafMetadata _ => true
  | _ => false
  end.

(** What one turn of an adapter's loop may do to [items] for the address
    [url]: nothing, or append one page built from a non-empty address and
    a non-empty text. *)
Definition appended_for (B : Z) (url : str) (items items' : list page) : Prop :=
  items' = items
  \/ exists title t,
      url <> [] /\ t <> []
      /\ items' = items ++ [mk_page url title
                               (slice_to B t
                                  ++ (if len t >? B then [ellipsis] else []))].

Definition stored_page (B : Z) (it : page) : Prop :=
  exists url title t,
    url <> [] /\ t <> []
    /\ it = mk_page url title
             (slice_to B t ++ (if len t >? B then [ellipsis] else [])).

(** A page of the local adapter: the address is the input one, whatever
    it is; the text is non-empty. *)
Definition direct_page (B : Z) (it : page) : Prop :=
  exists url title t,
    t <> []
    /\ it = mk_page url title
             (slice_to B t ++ (if len t >? B then [ellipsis] else [])).


(** The three dash variants [normalize_url] replaces. *)
Definition is_dash (c : char) : bool :=
  ((c =? en_dash) || (c =? em_dash) || (c =? minus_sign))%N.

(** The number a string of decimal digits denotes. *)
Definition is_digit (c : char) : bool := ((48 <=? c) && (c <=? 57))%N.

Definition digits_val (s : str) : N :=
  fold_left (fun a c => (10 * a + (c - 48))%N) s 0%N.

(** A row the loop of the batch adapter gets through: the values it
    calls [.strip()] on are strings (or falsy, so replaced by [""]). *)
Definition well_typed_row (row : dict) : Prop :=
  (exists u, row_url row = Ok u)
  /\ (exists t, row_title row = Ok t)
  /\ (exists x, strip_v (or_v (row_text row) (VStr [])) = Ok x).

(** The address the loop scrapes for a row: the row's, when it has one
    and no text. *)
Definition needs_scrape (row : dict) : option str :=
  match row_url row, strip_v (or_v (row_text row) (VStr [])) with
  | Ok u, Ok t => if truthy u && negb (truthy t) then Some u else None
  | _, _ => None
  end.


Definition scraped (h : history) : list str :=
  omap (fun e => match e with EvScrape u => Some u | _ => None end) h.

(** An answer of the fetcher the local adapter can do nothing with: an
    exception, [None], or the empty string. *)
Definition fetch_failed (r : result (option str)) : Prop :=
  match r with
  | Ok o => truthy_o o = false
  | Raise _ => True
  end.

(** The shapes the calls of one request can take: remote calls, then
    local ones, then at most one completion call. *)
Definition at_most_one_completion (c : history) : Prop :=
  c = [] \/ exists prompt, c = [EvCompletion model_name prompt].

(** ** Sample environments

    Concrete collaborators on which the statements below are run: both
    keys set or not, a fixed answer of the batch call, and answers of the
    scraper, the fetcher and the extractor that depend on the address
    only. *)
Module Samples.

Definition sample_env (fc_key openai_key : option str)
    (extract : result value) (scrape : str -> result value)
    (fetch : str -> result (option str))
    (extracted : str -> result (option str)) : Env :=
  {| FIRECRAWL_API_KEY := fc_key;
     OPENAI_API_KEY := openai_key;
     fc_extract := fun _ _ => extract;
     fc_scrape := fun _ url => scrape url;
     trafilatura_fetch_url := fun _ url => fetch url;
     trafilatura_extract := fun _ _ url => extracted url;
     trafilatura_extract_metadata := fun _ _ => Ok MetaNone;
     responses_create := fun _ _ _ => Ok (lit "report");
     urlparse_netloc := fun _ => Ok (lit "host");
     py_str := fun _ => [];
     md_markdown := fun s => s |}.

Definition key : option str := Some (lit "k").
Definition url_a : str := lit "https://example.com/a".
Definition url_b : str := lit "https://example.com/b".

Definition row (url text : str) : value :=
  VDict (<[lit "url" := VStr url]> (<[lit "markdown" := VStr text]> ∅)).

(** Nothing works: every service raises. *)
Definition dead : Env :=
  sample_env key key (Raise (ServiceError 500)) (fun _ => Raise (ServiceError 500))
    (fun _ => Raise (ServiceError 500)) (fun _ => Raise (ServiceError 500)).

(** The batch service answers both addresses, in the order given. *)
Definition batch_rows (rows : list value) : Env :=
  sample_env key key (Ok (VList rows)) (fun _ => Ok VNone)
    (fun _ => Ok None) (fun _ => Ok None).

(** The remote service is down; the local fetcher and extractor answer
    for every address, the empty one included. *)
Definition local_only : Env :=
  sample_env key key (Raise (ServiceError 500)) (fun _ => Raise (ServiceError 500))
    (fun _ => Ok (Some (lit "<html>"))) (fun _ => Ok (Some (lit "body"))).

(** The remote service is down and the local fetcher gets nothing for
    one address. *)
Definition url_none : str := lit "https://example.com/none".

Definition patchy : Env :=
  sample_env key key (Ok VNone) (fun _ => Ok VNone)
    (fun u => Ok (if bool_decide (u = url_none) then None
                  else Some (lit "<html>")))
    (fun _ => Ok (Some (lit "body"))).

(** A submitted form: a topic and two addresses, default numbers. *)
Definition form_ab : Form :=
  {| form_topic := lit " AI ";
     form_urls := lit "https://example.com/a, https://example.com/b";
     form_max_urls := Ok 8;
     form_per_page_limit := Ok 8000 |}.

(** Keys unset: the extraction key, or the completion key. *)
Definition no_firecrawl_key : Env :=
  sample_env None key (Ok VNone) (fun _ => Ok VNone)
    (fun _ => Ok (Some (lit "<html>"))) (fun _ => Ok (Some (lit "body"))).

Definition no_openai_key : Env :=
  sample_env key (Some []) (Ok (VList [row url_a (lit "hello world")]))
    (fun _ => Ok VNone) (fun _ => Ok None) (fun _ => Ok None).



(** ASCII letters and digits, a stand-in for [str.isalnum]. *)
Definition ascii_alnum (c : char) : bool :=
  ((48 <=? c) && (c <=? 57) || (65 <=? c) && (c <=? 90)
   || (97 <=? c) && (c <=? 122))%N.

End Samples.

(** * Properties *)

(** ** Stripping *)

Section Strip.
Variable p : char -> bool.

Lemma lstrip_all (w s : str) :
  Forall (fun c => p c = true) w -> lstrip p (w ++ s) = lstrip p s.
Proof.
  induction 1 as [|c w Hc _ IH]; simpl; [reflexivity|].
  now rewrite Hc.
Qed.

Lemma lstrip_stop (s : str) : starts_with p s = false -> lstrip p s = s.
Proof. destruct s as [|c r]; simpl; [reflexivity|]. now intros ->. Qed.

Lemma lstrip_starts (s : str) : starts_with p (lstrip p s) = false.
Proof.
  induction s as [|c r IH]; simpl; [reflexivity|].
  destruct (p c) eqn:E; simpl; [exact IH | exact E].
Qed.

(** What [lstrip] removes is a run of stripped characters. *)
Lemma lstrip_split (s : str) :
  exists w, s = w ++ lstrip p s /\ Forall (fun c => p c = true) w.
Proof.
  induction s as [|c r [w [Hw Fw]]]; simpl.
  - exists []. split; [reflexivity | constructor].
  - destruct (p c) eqn:E.
    + exists (c :: w). split; [simpl; now rewrite <- Hw | now constructor].
    + exists []. split; [reflexivity | constructor].
Qed.

Lemma rstrip_split (s : str) :
  exists w, s = rstrip p s ++ w /\ Forall (fun c => p c = true) w.
Proof.
  unfold rstrip. destruct (lstrip_split (rev s)) as [w [Hw Fw]].
  exists (rev w). split.
  - rewrite <- rev_app_distr, <- Hw. now rewrite rev_involutive.
  - now apply Forall_rev.
Qed.

Lemma rstrip_all (s w : str) :
  Forall (fun c => p c = true) w -> rstrip p (s ++ w) = rstrip p s.
Proof.
  intros Fw. unfold rstrip. rewrite rev_app_distr.
  rewrite lstrip_all; [reflexivity | now apply Forall_rev].
Qed.

Lemma rstrip_stop (s : str) : ends_with p s = false -> rstrip p s = s.
Proof.
  unfold ends_with, rstrip. intros H.
  rewrite lstrip_stop by exact H. apply rev_involutive.
Qed.

Lemma rstrip_ends (s : str) : ends_with p (rstrip p s) = false.
Proof.
  unfold ends_with, rstrip. rewrite rev_involutive. apply lstrip_starts.
Qed.

Lemma starts_with_app (a b : str) :
  a <> [] -> starts_with p (a ++ b) = starts_with p a.
Proof. destruct a; [congruence | reflexivity]. Qed.

Lemma ends_with_app (a b : str) :
  b <> [] -> ends_with p (a ++ b) = ends_with p b.
Proof.
  intros Hb. unfold ends_with. rewrite rev_app_distr.
  apply starts_with_app. intros E. apply Hb.
  rewrite <- (rev_involutive b), E. reflexivity.
Qed.

Lemma rstrip_starts (s : str) :
  starts_with p s = false -> starts_with p (rstrip p s) = false.
Proof.
  intros Hs. destruct (rstrip_split s) as [w [Hw _]].
  destruct (rstrip p s) as [|c r] eqn:E; [reflexivity|].
  rewrite Hw in Hs. exact Hs.
Qed.

Lemma strip_edges (s : str) :
  starts_with p (strip p s) = false /\ ends_with p (strip p s) = false.
Proof.
  unfold strip. split.
  - apply rstrip_starts, lstrip_starts.
  - apply rstrip_ends.
Qed.

Lemma strip_fixed (s : str) :
  starts_with p s = false -> ends_with p s = false -> strip p s = s.
Proof.
  intros Hs He. unfold strip. rewrite lstrip_stop by exact Hs.
  now apply rstrip_stop.
Qed.

Lemma strip_nothing_left (s : str) :
  Forall (fun c => p c = true) s -> strip p s = [].
Proof.
  intros F. unfold strip.
  rewrite <- (app_nil_r s), lstrip_all by exact F. reflexivity.
Qed.

(** A core with clean ends between two runs of stripped characters is
    what [strip] returns. *)
Lemma strip_sandwich (a m b : str) :
  Forall (fun c => p c = true) a ->
  Forall (fun c => p c = true) b ->
  starts_with p m = false -> ends_with p m = false ->
  strip p (a ++ m ++ b) = m.
Proof.
  intros Fa Fb Hs He. destruct m as [|c r].
  - simpl. apply strip_nothing_left. now apply Forall_app.
  - unfold strip. rewrite lstrip_all by exact Fa.
    rewrite lstrip_stop by (rewrite starts_with_app; [exact Hs | discriminate]).
    rewrite rstrip_all by exact Fb. now apply rstrip_stop.
Qed.

Lemma strip_split (s : str) :
  exists a b, s = a ++ strip p s ++ b.
Proof.
  destruct (lstrip_split s) as [a [Ha _]].
  destruct (rstrip_split (lstrip p s)) as [b [Hb _]].
  exists a, b. unfold strip. now rewrite <- Hb.
Qed.

Lemma strip_length (s : str) : (length (strip p s) <= length s)%nat.
Proof.
  destruct (strip_split s) as [a [b H]].
  rewrite H at 2. rewrite !length_app. lia.
Qed.

Lemma strip_same_length (s : str) :
  length (strip p s) = length s -> strip p s = s.
Proof.
  intros H. destruct (strip_split s) as [a [b E]].
  assert (L : length s = (length a + (length (strip p s) + length b))%nat).
  { rewrite E at 1. now rewrite !length_app. }
  destruct a; [|simpl in L; lia]. destruct b; [|simpl in L; lia].
  simpl in E. now rewrite app_nil_r in E.
Qed.

Lemma strip_Forall (P : char -> Prop) (s : str) :
  Forall P s -> Forall P (strip p s).
Proof.
  intros F. destruct (strip_split s) as [a [b E]].
  rewrite E in F. apply Forall_app in F as [_ F].
  now apply Forall_app in F as [F _].
Qed.

(** Stripping commutes with a character substitution that does not
    change which characters are stripped. *)
Lemma lstrip_map (f : char -> char) (s : str) :
  (forall c, p (f c) = p c) ->
  lstrip p (List.map f s) = List.map f (lstrip p s).
Proof.
  intros Hf. induction s as [|c r IH]; simpl; [reflexivity|].
  rewrite Hf. destruct (p c); [exact IH | reflexivity].
Qed.

Lemma strip_map (f : char -> char) (s : str) :
  (forall c, p (f c) = p c) ->
  strip p (List.map f s) = List.map f (strip p s).
Proof.
  intros Hf. unfold strip, rstrip.
  rewrite lstrip_map by exact Hf.
  rewrite <- map_rev, lstrip_map by exact Hf.
  now rewrite <- map_rev.
Qed.

End Strip.

(** ** URL normalisation *)

Lemma replace1_respects (p : char -> bool) (old new : char) (s : str) :
  p old = p new ->
  strip p (replace1 old new s) = replace1 old new (strip p s).
Proof.
  intros H. unfold replace1. apply strip_map. intros c.
  destruct (N.eqb_spec c old) as [->|_]; congruence.
Qed.

Lemma replace_dashes_strip (p : char -> bool) (s : str) :
  p en_dash = p hyphen -> p em_dash = p hyphen -> p minus_sign = p hyphen ->
  strip p (replace_dashes s) = replace_dashes (strip p s).
Proof.
  intros H1 H2 H3. unfold replace_dashes.
  now rewrite !replace1_respects.
Qed.

Lemma replace_dashes_length (s : str) : length (replace_dashes s) = length s.
Proof. unfold replace_dashes, replace1. now rewrite !length_map. Qed.

Lemma replace_dashes_idem (s : str) :
  replace_dashes (replace_dashes s) = replace_dashes s.
Proof.
  unfold replace_dashes, replace1. rewrite !map_map.
  apply map_ext. intros c.
  unfold hyphen, en_dash, em_dash, minus_sign.
  destruct (N.eqb_spec c 8211) as [->|H1]; [reflexivity|].
  destruct (N.eqb_spec c 8212) as [->|H2]; [reflexivity|].
  destruct (N.eqb_spec c 8722) as [->|H3]; [reflexivity|].
  apply N.eqb_neq in H1, H2, H3. now rewrite ?H1, ?H2, ?H3.
Qed.

Lemma replace_dashes_Forall (P : char -> Prop) (s : str) :
  P hyphen -> Forall P s -> Forall P (replace_dashes s).
Proof.
  intros Hh F. unfold replace_dashes, replace1. rewrite !map_map.
  induction F as [|c r Hc _ IH]; simpl; constructor; [|exact IH].
  destruct (c =? en_dash)%N; simpl;
    repeat match goal with
           | |- context [N.eqb ?a ?b] => destruct (N.eqb a b)
           end; assumption.
Qed.

Lemma strip_isspace_dashes (s : str) :
  strip isspace (replace_dashes s) = replace_dashes (strip isspace s).
Proof. now apply replace_dashes_strip. Qed.

Lemma strip_quotes_dashes (s : str) :
  strip is_quote (replace_dashes s) = replace_dashes (strip is_quote s).
Proof. now apply replace_dashes_strip. Qed.

(** Stripping the quotes of a string already stripped of them changes
    nothing. *)
Lemma strip_strip (p : char -> bool) (s : str) :
  strip p (strip p s) = strip p s.
Proof. destruct (strip_edges p s). now apply strip_fixed. Qed.

(** A second normalisation only strips once more. *)
Lemma normalize_url_twice (s : str) :
  normalize_url (normalize_url s)
  = replace_dashes (strip is_quote (strip isspace (strip is_quote (strip isspace s)))).
Proof.
  unfold normalize_url.
  now rewrite strip_isspace_dashes, strip_quotes_dashes, replace_dashes_idem.
Qed.

Lemma normalize_url_idem_if (s : str) :
  strip isspace (normalize_url s) = normalize_url s ->
  normalize_url (normalize_url s) = normalize_url s.
Proof.
  intros H. rewrite normalize_url_twice.
  rewrite <- strip_quotes_dashes, <- strip_isspace_dashes.
  fold (normalize_url s). rewrite H.
  unfold normalize_url. rewrite strip_quotes_dashes. now rewrite strip_strip.
Qed.

Lemma normalize_url_idem_only_if (s : str) :
  normalize_url (normalize_url s) = normalize_url s ->
  strip isspace (normalize_url s) = normalize_url s.
Proof.
  intros H. apply strip_same_length.
  apply Nat.le_antisymm; [apply strip_length|].
  rewrite <- H at 1. 
  change (normalize_url (normalize_url s))
    with (replace_dashes (strip is_quote (strip isspace (normalize_url s)))).
  rewrite replace_dashes_length. apply strip_length.
Qed.

(** The fields of [re.split] hold no separator. *)
Lemma re_split_runs_clean (sep : char -> bool) (s cur : str) (b : bool) :
  Forall (fun c => sep c = false) cur ->
  Forall (Forall (fun c => sep c = false)) (re_split_runs sep s cur b).
Proof.
  revert cur b. induction s as [|c r IH]; intros cur b Hcur; simpl.
  - constructor; [now apply Forall_rev | constructor].
  - destruct (sep c) eqn:E.
    + destruct b.
      * apply IH. constructor.
      * constructor; [now apply Forall_rev | apply IH; constructor].
    + apply IH. now constructor.
Qed.

Lemma parse_urls_csv_no_space (raw u : str) :
  In u (parse_urls_csv raw) -> Forall (fun c => isspace c = false) u.
Proof.
  unfold parse_urls_csv. intros Hin.
  apply List.filter_In in Hin as [Hin _].
  pose proof (re_split_runs_clean is_sep (strip isspace raw) [] false
                (List.Forall_nil _)) as F.
  rewrite List.Forall_forall in F. specialize (F u Hin).
  eapply Forall_impl; [exact F|]. simpl. intros c Hc.
  unfold is_sep in Hc. now apply orb_false_elim in Hc as [_ Hc].
Qed.

Lemma no_space_edges (s : str) :
  Forall (fun c => isspace c = false) s ->
  starts_with isspace s = false /\ ends_with isspace s = false.
Proof.
  assert (E : forall t, Forall (fun c => isspace c = false) t ->
                       starts_with isspace t = false).
  { intros t Ft. destruct Ft; [reflexivity | assumption]. }
  intros F. split; [now apply E|].
  unfold ends_with. now apply E, Forall_rev.
Qed.

Lemma normalize_url_no_space (s : str) :
  Forall (fun c => isspace c = false) s ->
  Forall (fun c => isspace c = false) (normalize_url s).
Proof.
  intros F. unfold normalize_url.
  apply replace_dashes_Forall; [reflexivity|].
  now do 2 apply strip_Forall.
Qed.

(** The six characters of the second [strip], in any order. *)
Lemma is_quote_six (x : char) :
  is_quote x = in_chars [dquote; apostrophe; lsquo; rsquo; ldquo; rdquo] x.
Proof.
  unfold is_quote, in_chars, quote_chars. simpl.
  destruct (x =? lsquo)%N, (x =? rsquo)%N, (x =? ldquo)%N, (x =? rdquo)%N,
    (x =? dquote)%N, (x =? apostrophe)%N; reflexivity.
Qed.

Lemma quote_not_space (x : char) : is_quote x = true -> isspace x = false.
Proof.
  unfold is_quote, in_chars, quote_chars. simpl. intros H.
  repeat (apply orb_prop in H as [H|H];
          [apply N.eqb_eq in H; subst x; reflexivity|]).
  discriminate.
Qed.

Lemma edge_ext (p q : char -> bool) (s : str) :
  (forall x, p x = q x) ->
  starts_with p s = starts_with q s /\ ends_with p s = ends_with q s.
Proof.
  intros E. unfold ends_with. split; [destruct s | destruct (rev s)]; simpl; auto.
Qed.

Lemma Forall_quote_six (q : str) :
  Forall (fun x => in_chars [dquote; apostrophe; lsquo; rsquo; ldquo; rdquo] x = true) q ->
  Forall (fun x => is_quote x = true) q.
Proof.
  intros F. eapply Forall_impl; [exact F|]. simpl. intros x Hx.
  now rewrite is_quote_six.
Qed.

(** The first character of a run of quotes followed by anything is a
    quote, so no whitespace. *)
Lemma quoted_starts (q m : str) :
  Forall (fun x => is_quote x = true) q ->
  (q = [] -> starts_with isspace m = false) ->
  starts_with isspace (q ++ m) = false.
Proof.
  intros F H. destruct F as [|x q Hx _]; simpl.
  - now apply H.
  - now apply quote_not_space.
Qed.

Lemma quoted_ends (m q : str) :
  Forall (fun x => is_quote x = true) q ->
  (q = [] -> ends_with isspace m = false) ->
  ends_with isspace (m ++ q) = false.
Proof.
  intros F H. unfold ends_with. rewrite rev_app_distr.
  apply quoted_starts; [now apply Forall_rev|].
  intros E. apply H. rewrite <- (rev_involutive q), E. reflexivity.
Qed.

(** C8, as stated: refuted.  A quoted address with a blank inside the
    quotes is normalised to a string that a second normalisation still
    shortens. *)
Lemma normalize_url_not_idempotent :
  let s := [dquote; 32; 97; dquote]%N in
  normalize_url s = [32; 97]%N
  /\ normalize_url (normalize_url s) = [97]%N
  /\ normalize_url (normalize_url s) <> normalize_url s.
Proof. vm_compute. repeat split; discriminate. Qed.

(** C8, amended: normalising twice equals normalising once exactly when
    the first result neither starts nor ends with whitespace; this holds
    for every string without whitespace, hence for every token that
    [parse_urls_csv] hands to [normalize_url]. *)
Theorem normalize_url_idempotent_on_tokens :
  (forall s : str,
      normalize_url (normalize_url s) = normalize_url s
      <-> strip isspace (normalize_url s) = normalize_url s)
  /\ (forall s : str,
         Forall (fun c => isspace c = false) s ->
         normalize_url (normalize_url s) = normalize_url s)
  /\ (forall raw u : str,
         In u (parse_urls_csv raw) ->
         normalize_url (normalize_url u) = normalize_url u).
Proof.
  assert (A : forall s : str,
             Forall (fun c => isspace c = false) s ->
             normalize_url (normalize_url s) = normalize_url s).
  { intros s F. apply normalize_url_idem_if.
    destruct (no_space_edges _ (normalize_url_no_space s F)).
    now apply strip_fixed. }
  split; [|split].
  - intros s. split;
      [apply normalize_url_idem_only_if | apply normalize_url_idem_if].
  - exact A.
  - intros raw u Hin. eapply A, parse_urls_csv_no_space, Hin.
Qed.

Lemma normalize_url_idempotent_on_tokens_witness :
  let raw := lit "x, 'https://a.b/c-d' " in
  let u := lit "'https://a.b/c-d'" in
  In u (parse_urls_csv raw)
  /\ normalize_url (normalize_url u) = normalize_url u.
Proof.
  assert (H : In (lit "'https://a.b/c-d'")
                (parse_urls_csv (lit "x, 'https://a.b/c-d' "))).
  { vm_compute. right. left. reflexivity. }
  split; [exact H|].
  exact (proj2 (proj2 normalize_url_idempotent_on_tokens) _ _ H).
Defined.

(** Every string is whitespace, quotes, a core with clean ends, quotes,
    whitespace: the pieces the two [strip] calls remove, one after the
    other. *)
Lemma normalize_url_pieces (s : str) :
  exists w1 q1 c q2 w2,
    s = w1 ++ q1 ++ c ++ q2 ++ w2
    /\ Forall (fun x => isspace x = true) w1
    /\ Forall (fun x => isspace x = true) w2
    /\ Forall (fun x => is_quote x = true) q1
    /\ Forall (fun x => is_quote x = true) q2
    /\ starts_with is_quote c = false
    /\ ends_with is_quote c = false
    /\ (q1 = [] -> starts_with isspace c = false)
    /\ (q2 = [] -> ends_with isspace c = false).
Proof.
  destruct (lstrip_split isspace s) as [w1 [E1 F1]].
  destruct (rstrip_split isspace (lstrip isspace s)) as [w2 [E2 F2]].
  fold (strip isspace s) in E2.
  destruct (strip_edges isspace s) as [Ms Me].
  set (m := strip isspace s) in *.
  destruct (lstrip_split is_quote m) as [q1 [E3 G1]].
  destruct (rstrip_split is_quote (lstrip is_quote m)) as [q2 [E4 G2]].
  fold (strip is_quote m) in E4.
  destruct (strip_edges is_quote m) as [Cs Ce].
  set (c := strip is_quote m) in *.
  assert (Em : m = q1 ++ c ++ q2) by (rewrite <- E4; exact E3).
  assert (E : s = w1 ++ q1 ++ c ++ q2 ++ w2).
  { rewrite E1 at 1. rewrite E2, Em. now rewrite <- !app_assoc. }
  clearbody c m. clear E1 E2 E3 E4.
  exists w1, q1, c, q2, w2.
  split; [exact E|]. repeat split; try assumption.
  - intros ->. destruct c as [|x r]; [reflexivity|].
    rewrite Em in Ms. exact Ms.
  - intros ->. destruct c as [|x r]; [reflexivity|].
    rewrite Em, app_nil_r in Me.
    now rewrite ends_with_app in Me by discriminate.
Qed.

(** C10: [normalize_url] removes the surrounding whitespace and then any
    run mixing the ASCII double quote, the apostrophe and the four
    typographic quotes, from both ends, once: whitespace that only the
    quote stripping uncovers stays in the result.  Every input string
    splits into such pieces. *)
Theorem normalize_url_strips_six_quotes :
  let six := in_chars [dquote; apostrophe; lsquo; rsquo; ldquo; rdquo] in
  let pieces (w1 q1 c q2 w2 : str) :=
    Forall (fun x => isspace x = true) w1
    /\ Forall (fun x => isspace x = true) w2
    /\ Forall (fun x => six x = true) q1
    /\ Forall (fun x => six x = true) q2
    /\ starts_with six c = false
    /\ ends_with six c = false
    /\ (q1 = [] -> starts_with isspace c = false)
    /\ (q2 = [] -> ends_with isspace c = false) in
  (forall w1 q1 c q2 w2,
      pieces w1 q1 c q2 w2 ->
      normalize_url (w1 ++ q1 ++ c ++ q2 ++ w2) = replace_dashes c)
  /\ (forall s, exists w1 q1 c q2 w2,
         s = w1 ++ q1 ++ c ++ q2 ++ w2 /\ pieces w1 q1 c q2 w2).
Proof.
  intros six pieces. split.
  - intros w1 q1 c q2 w2 (F1 & F2 & G1 & G2 & Hs & He & S1 & S2).
    apply Forall_quote_six in G1, G2.
    destruct (edge_ext is_quote six c is_quote_six) as [Es Ee].
    rewrite <- Es in Hs. rewrite <- Ee in He.
    unfold normalize_url. f_equal.
    replace (w1 ++ q1 ++ c ++ q2 ++ w2) with (w1 ++ (q1 ++ c ++ q2) ++ w2)
      by now rewrite <- !app_assoc.
    rewrite strip_sandwich; try assumption.
    + now apply strip_sandwich.
    + apply quoted_starts; [exact G1|]. intros E.
      destruct c as [|x r].
      * simpl. destruct G2 as [|y q2 Hy _]; [reflexivity|].
        now apply quote_not_space.
      * simpl. now apply S1.
    + rewrite app_assoc. apply quoted_ends; [exact G2|]. intros E.
      destruct c as [|x r].
      * rewrite app_nil_r. now apply (quoted_ends [] q1 G1).
      * rewrite ends_with_app by discriminate. now apply S2.
  - intros s.
    destruct (normalize_url_pieces s)
      as (w1 & q1 & c & q2 & w2 & E & F1 & F2 & G1 & G2 & Hs & He & S1 & S2).
    destruct (edge_ext is_quote six c is_quote_six) as [Es Ee].
    exists w1, q1, c, q2, w2. split; [exact E|].
    assert (Q : forall q, Forall (fun x => is_quote x = true) q ->
                          Forall (fun x => six x = true) q).
    { intros q Fq. eapply Forall_impl; [exact Fq|]. simpl. intros x Hx.
      unfold six. now rewrite <- is_quote_six. }
    unfold pieces. rewrite <- Es, <- Ee. repeat split; auto.
Qed.

Lemma normalize_url_strips_six_quotes_witness :
  normalize_url ([32%N] ++ [ldquo; apostrophe] ++ [32%N; 97%N; en_dash; 98%N]
                   ++ [dquote; rsquo] ++ [10%N])
  = [32%N; 97%N; hyphen; 98%N].
Proof.
  apply (proj1 normalize_url_strips_six_quotes
           [32%N] [ldquo; apostrophe] [32%N; 97%N; en_dash; 98%N]
           [dquote; rsquo] [10%N]).
  repeat split; first [ discriminate | repeat constructor ].
Defined.

(** ** The monad *)

Lemma bind_Ok {A B} (m : M A) (k : A -> M B) h b h' :
  bind m k h = (Ok b, h') ->
  exists a h1, m h = (Ok a, h1) /\ k a h1 = (Ok b, h').
Proof.
  unfold bind. destruct (m h) as [[a|e] h1]; intros H; [eauto | discriminate].
Qed.

Lemma bind_run {A B} (m : M A) (k : A -> M B) h a h1 :
  m h = (Ok a, h1) -> bind m k h = k a h1.
Proof. unfold bind. now intros ->. Qed.

Lemma bind_raise {A B} (m : M A) (k : A -> M B) h e h1 :
  m h = (Raise e, h1) -> bind m k h = (Raise e, h1).
Proof. unfold bind. now intros ->. Qed.


(** ** The stored text *)

Lemma truthy_true (s : str) : truthy s = true <-> s <> [].
Proof. destruct s; simpl; split; congruence. Qed.

Lemma slice_to_truncated (B : Z) (t : str) :
  0 <= B ->
  slice_to B t ++ (if len t >? B then [ellipsis] else []) = truncated B t.
Proof.
  intros HB. unfold slice_to, truncated, len.
  rewrite Z.gtb_ltb. destruct (Z.leb_spec 0 B); [|lia]. f_equal.
  destruct (Z.le_gt_cases (Z.of_nat (length t)) B).
  - rewrite Z.min_l by lia. rewrite Nat2Z.id.
    rewrite firstn_all. apply firstn_all2. lia.
  - now rewrite Z.min_r by lia.
Qed.

Lemma truncated_length (B : Z) (t : str) :
  0 <= B ->
  len (truncated B t) = Z.min (len t) B + (if B <? len t then 1 else 0).
Proof.
  intros HB. unfold truncated, len. rewrite length_app, length_firstn.
  destruct (Z.ltb_spec B (Z.of_nat (length t))); simpl; lia.
Qed.


(** ** The page record *)

Lemma mk_page_url (u ti te : str) : mk_page u ti te !! lit "url" = Some u.
Proof. reflexivity. Qed.

Lemma mk_page_text (u ti te : str) : mk_page u ti te !! lit "text" = Some te.
Proof. reflexivity. Qed.

Lemma mk_page_url_of (u ti te : str) : url_of (mk_page u ti te) = u.
Proof. unfold url_of, field. now rewrite mk_page_url. Qed.

Lemma mk_page_text_of (u ti te : str) : text_of (mk_page u ti te) = te.
Proof. unfold text_of, field. now rewrite mk_page_text. Qed.

(** ** One call of [_append_if_text] *)

(** Either nothing is appended, or one page is: for a non-empty address
    and a non-empty stripped text [t], with [t] cut as the source
    expression cuts it. *)
Lemma append_if_text_spec env B items url title v r :
  _append_if_text env B items url title v = Ok r ->
  exists t, strip_v (or_v v (VStr [])) = Ok t
    /\ ((r = (false, items) /\ (url = [] \/ t = []))
        \/ (url <> [] /\ t <> []
            /\ exists title',
                r = (true,
                     items ++ [mk_page url title'
                                 (slice_to B t
                                    ++ (if len t >? B then [ellipsis] else []))]))).
Proof.
  unfold _append_if_text.
  destruct (strip_v (or_v v (VStr []))) as [t|e]; [|discriminate].
  intros H. exists t. split; [reflexivity|].
  destruct (truthy url) eqn:Eu; simpl in H.
  - destruct (truthy t) eqn:Et; inversion H; subst.
    + right. apply truthy_true in Eu, Et. eauto.
    + left. split; [reflexivity|]. right. now destruct t.
  - inversion H; subst. left. split; [reflexivity|]. left. now destruct url.
Qed.

Lemma append_if_text_appended env B items url title v r :
  _append_if_text env B items url title v = Ok r ->
  appended_for B url items (snd r) /\ (fst r = false -> snd r = items).
Proof.
  intros H. apply append_if_text_spec in H as [t [_ [[-> _]|[Hu [Ht [ti ->]]]]]].
  - split; [now left | reflexivity].
  - split; [right; eauto | discriminate].
Qed.

(** ** The batch adapter, row by row *)

Lemma scrape_fallback_spec env B items url title h r h' :
  scrape_fallback env B items url title h = (r, h') ->
  h' = h ++ [EvScrape url]
  /\ exists items', r = Ok items' /\ appended_for B url items items'.
Proof.
  unfold scrape_fallback, try_except, bind, call, lift, ret.
  destruct (fc_scrape env h url) as [s|e].
  2:{ intros H. inversion H; subst. split; [reflexivity|].
      exists items. split; [reflexivity | now left]. }
  destruct (strip_v _) as [title2|e].
  2:{ intros H. inversion H; subst. split; [reflexivity|].
      exists items. split; [reflexivity | now left]. }
  destruct (_append_if_text env B items url title2 _) as [r0|e] eqn:E.
  2:{ intros H. inversion H; subst. split; [reflexivity|].
      exists items. split; [reflexivity | now left]. }
  intros H. inversion H; subst. split; [reflexivity|].
  exists (snd r0). split; [reflexivity|].
  now apply append_if_text_appended in E as [E _].
Qed.

Lemma process_row_spec env B items row h items' h' :
  process_row env B items row h = (Ok items', h') ->
  exists url,
    row_url row = Ok url
    /\ appended_for B url items items'
    /\ (h' = h \/ h' = h ++ [EvScrape url]).
Proof.
  unfold process_row, bind, lift, ret.
  destruct (row_url row) as [url|e]; [|discriminate].
  destruct (row_title row) as [title|e]; [|discriminate].
  destruct (_append_if_text env B items url title _) as [r0|e] eqn:E;
    [|discriminate].
  apply append_if_text_appended in E as [E1 E2].
  destruct (fst r0).
  - intros H. inversion H; subst. exists url. auto.
  - rewrite (E2 eq_refl) in *. destruct (truthy url).
    + intros H. apply scrape_fallback_spec in H as [-> [it [Hr Ha]]].
      inversion Hr; subst. exists url. auto.
    + intros H. inversion H; subst. exists url. auto.
Qed.

Lemma process_row_trace env B items row h r h' :
  process_row env B items row h = (r, h') ->
  exists ext, h' = h ++ ext /\ Forall (fun e => is_remote e = true) ext.
Proof.
  unfold process_row, bind, lift, ret.
  assert (N : forall (x : result (list page)) h0,
             (x, h) = (r, h0) ->
             exists ext, h0 = h ++ ext /\ Forall (fun e => is_remote e = true) ext).
  { intros x h0 H. inversion H; subst. exists []. now rewrite app_nil_r. }
  destruct (row_url row) as [url|e]; [|apply N].
  destruct (row_title row) as [title|e]; [|apply N].
  destruct (_append_if_text env B items url title _) as [r0|e]; [|apply N].
  destruct (fst r0); [apply N|].
  destruct (truthy url); [|apply N].
  intros H. apply scrape_fallback_spec in H as [-> _].
  exists [EvScrape url]. split; [reflexivity | now repeat constructor].
Qed.

Lemma for_rows_trace env B rows items h r h' :
  for_rows env B rows items h = (r, h') ->
  exists ext, h' = h ++ ext /\ Forall (fun e => is_remote e = true) ext.
Proof.
  revert items h. induction rows as [|row rest IH]; intros items h; simpl.
  - unfold ret. intros H. inversion H; subst. exists []. now rewrite app_nil_r.
  - unfold bind. destruct (process_row env B items row h) as [[it|e] h1] eqn:E;
      apply process_row_trace in E as [ext1 [-> F1]].
    + intros H. apply IH in H as [ext2 [-> F2]].
      exists (ext1 ++ ext2). rewrite app_assoc. split; [reflexivity|].
      now apply Forall_app.
    + intros H. inversion H; subst. eauto.
Qed.

(** The pages a run of the loop adds are stored pages, and their
    addresses follow the order of the rows. *)
Lemma for_rows_spec env B rows items h items' h' :
  for_rows env B rows items h = (Ok items', h') ->
  exists us added,
    Forall2 (fun row u => row_url row = Ok u) rows us
    /\ items' = items ++ added
    /\ sublist (List.map url_of added) us
    /\ Forall (stored_page B) added.
Proof.
  revert items h. induction rows as [|row rest IH]; intros items h; simpl.
  - unfold ret. intros H. inversion H; subst.
    exists [], []. rewrite app_nil_r. repeat split; constructor.
  - intros H. apply bind_Ok in H as [it [h1 [H1 H2]]].
    apply process_row_spec in H1 as [url [Hu [Ha _]]].
    apply IH in H2 as [us [added [F2 [-> [Hs Fa]]]]].
    destruct Ha as [->|[title [t [Hne [Hte ->]]]]].
    + exists (url :: us), added. repeat split; try assumption.
      * now constructor.
      * now apply sublist_cons.
    + exists (url :: us), (mk_page url title
                 (slice_to B t ++ (if len t >? B then [ellipsis] else []))
               :: added).
      repeat split.
      * now constructor.
      * now rewrite <- app_assoc.
      * simpl. rewrite mk_page_url_of. now apply sublist_skip.
      * constructor; [|exact Fa]. exists url, title, t. auto.
Qed.

Lemma firecrawl_no_key env topic urls B h :
  key_missing (FIRECRAWL_API_KEY env) = true ->
  firecrawl_fetch_pages_with_extract env topic urls B h
  = (Raise missing_firecrawl_key, h).
Proof.
  intros K. unfold firecrawl_fetch_pages_with_extract. now rewrite K.
Qed.

Lemma firecrawl_trace env topic urls B h r h' :
  firecrawl_fetch_pages_with_extract env topic urls B h = (r, h') ->
  exists ext, h' = h ++ ext /\ Forall (fun e => is_remote e = true) ext.
Proof.
  unfold firecrawl_fetch_pages_with_extract.
  assert (N : forall (x : result (list page)) h0,
             (x, h) = (r, h0) ->
             exists ext, h0 = h ++ ext /\ Forall (fun e => is_remote e = true) ext).
  { intros x h0 H. inversion H; subst. exists []. now rewrite app_nil_r. }
  destruct (key_missing _); [apply N|].
  destruct urls as [|u us]; [apply N|].
  unfold bind, try_except, call, ret.
  destruct (fc_extract env h (u :: us)) as [v|e];
    intros H; cbv beta iota in H;
    apply for_rows_trace in H as [ext [-> F]];
    exists (EvExtract (u :: us) :: ext);
    (split; [now rewrite <- app_assoc | now constructor]).
Qed.

Lemma firecrawl_Ok env topic urls B h items h' :
  firecrawl_fetch_pages_with_extract env topic urls B h = (Ok items, h') ->
  key_missing (FIRECRAWL_API_KEY env) = false
  /\ ((urls = [] /\ items = [] /\ h' = h)
      \/ (urls <> []
          /\ exists us,
              Forall2 (fun row u => row_url row = Ok u)
                (rows_of env (extract_answer env h urls)) us
              /\ sublist (List.map url_of items) us
              /\ Forall (stored_page B) items)).
Proof.
  unfold firecrawl_fetch_pages_with_extract, extract_answer.
  destruct (key_missing _); [discriminate|]. intros H.
  split; [reflexivity|]. revert H.
  destruct urls as [|u us].
  - unfold ret. intros H. inversion H; subst. now left.
  - right. split; [discriminate|]. revert H.
    unfold bind, try_except, call, ret.
    destruct (fc_extract env h (u :: us)) as [v|e];
      intros H; cbv beta iota in H;
      apply for_rows_spec in H as [us' [added [F2 [-> [Hs Fa]]]]];
      exists us'; auto.
Qed.

(** ** The local adapter, address by address *)

Lemma direct_one_spec env B items url h :
  exists items' ext,
    direct_one env B items url h = (Ok items', h ++ EvFetchUrl url :: ext)
    /\ fetched ext = []
    /\ Forall (fun e => is_local e = true) ext
    /\ (items' = items
        \/ exists d title t,
            trafilatura_extract env (h ++ [EvFetchUrl url]) d url = Ok (Some t)
            /\ t <> []
            /\ items' = items ++ [mk_page url title
                                    (slice_to B t
                                       ++ (if len t >? B then [ellipsis] else []))]).
Proof.
  unfold direct_one, try_except, bind, call, lift, ret.
  assert (Skip : forall hh ext,
             hh = h ++ EvFetchUrl url :: ext ->
             fetched ext = [] ->
             Forall (fun e => is_local e = true) ext ->
             exists items' ext',
               (Ok items, hh)
               = (@Ok (list page) items', h ++ EvFetchUrl url :: ext')
               /\ fetched ext' = []
               /\ Forall (fun e => is_local e = true) ext'
               /\ (items' = items
                   \/ exists d title t,
                       trafilatura_extract env (h ++ [EvFetchUrl url]) d url
                       = Ok (Some t)
                       /\ t <> []
                       /\ items' = items ++ [mk_page url title
                                    (slice_to B t
                                       ++ (if len t >? B then [ellipsis] else []))])).
  { intros hh ext -> Hf Hl. exists items, ext. auto. }
  destruct (trafilatura_fetch_url env h url) as [dl|e].
  2:{ apply (Skip _ []); [reflexivity | reflexivity | constructor]. }
  destruct (truthy_o dl) eqn:Ed; cbn [negb].
  2:{ apply (Skip _ []); [reflexivity | reflexivity | constructor]. }
  destruct dl as [d|]; [|discriminate]. cbn [default from_option id].
  destruct (trafilatura_extract env (h ++ [EvFetchUrl url]) d url)
    as [tx|e] eqn:Ex.
  2:{ apply (Skip _ [EvTrafExtract d url]);
        [now rewrite <- app_assoc | reflexivity | now repeat constructor]. }
  destruct (truthy_o tx) eqn:Et; cbn [negb].
  2:{ apply (Skip _ [EvTrafExtract d url]);
        [now rewrite <- app_assoc | reflexivity | now repeat constructor]. }
  destruct tx as [t|]; [|discriminate].
  cbn [default from_option id]. simpl in Et.
  destruct (trafilatura_extract_metadata env _ d) as [meta|e].
  2:{ apply (Skip _ [EvTrafExtract d url; EvTrafMetadata d]);
        [now rewrite <- !app_assoc | reflexivity | now repeat constructor]. }
  destruct (meta_title meta) as [title|e].
  2:{ apply (Skip _ [EvTrafExtract d url; EvTrafMetadata d]);
        [now rewrite <- !app_assoc | reflexivity | now repeat constructor]. }
  rewrite Et.
  eexists _, [EvTrafExtract d url; EvTrafMetadata d].
  rewrite <- !app_assoc.
  repeat split; [now repeat constructor|].
  right. exists d, (or_str title (origin env url)), t.
  repeat split; [exact Ex | now apply truthy_true].
Qed.

Lemma fetched_app (a b : history) : fetched (a ++ b) = fetched a ++ fetched b.
Proof. apply omap_app. Qed.

Lemma direct_loop_spec env B urls items h :
  exists added ext,
    direct_loop env B urls items h = (Ok (items ++ added), h ++ ext)
    /\ fetched ext = urls
    /\ Forall (fun e => is_local e = true) ext
    /\ sublist (List.map url_of added) urls
    /\ Forall (direct_page B) added.
Proof.
  revert items h. induction urls as [|url rest IH]; intros items h; simpl.
  - exists [], []. unfold ret. rewrite !app_nil_r.
    repeat split; constructor.
  - destruct (direct_one_spec env B items url h)
      as [items1 [ext1 [H1 [Hf1 [Hl1 Hd]]]]].
    destruct (IH items1 (h ++ EvFetchUrl url :: ext1))
      as [added [ext2 [H2 [Hf2 [Hl2 [Hs Fa]]]]]].
    rewrite (bind_run _ _ _ _ _ H1), H2.
    assert (Ht : fetched ((EvFetchUrl url :: ext1) ++ ext2) = url :: rest).
    { rewrite fetched_app, Hf2. simpl. now rewrite Hf1. }
    assert (Hl : Forall (fun e => is_local e = true)
                   ((EvFetchUrl url :: ext1) ++ ext2)).
    { apply Forall_app. split; [now constructor | exact Hl2]. }
    destruct Hd as [->|[d [title [t [_ [Hne ->]]]]]].
    + exists added, ((EvFetchUrl url :: ext1) ++ ext2).
      rewrite <- app_assoc.
      repeat split; try assumption. now apply sublist_cons.
    + exists (mk_page url title
                (slice_to B t ++ (if len t >? B then [ellipsis] else []))
              :: added), ((EvFetchUrl url :: ext1) ++ ext2).
      rewrite <- !app_assoc.
      repeat split; try assumption.
      * simpl. rewrite mk_page_url_of. now apply sublist_skip.
      * constructor; [|exact Fa]. exists url, title, t. auto.
Qed.

(** The local adapter never raises. *)
Lemma direct_spec env urls B h :
  exists items ext,
    direct_fetch_pages_with_trafilatura env urls B h = (Ok items, h ++ ext)
    /\ fetched ext = urls
    /\ Forall (fun e => is_local e = true) ext
    /\ sublist (List.map url_of items) urls
    /\ Forall (direct_page B) items.
Proof.
  unfold direct_fetch_pages_with_trafilatura.
  destruct (direct_loop_spec env B urls [] h) as [added [ext H]].
  exists added, ext. exact H.
Qed.





(** ** C1: what an emitted record holds *)




(** ** C2: the truncation rule *)

(** C2, as stated: refuted.  The batch adapter strips the extracted text
    before it measures and cuts it, so a text of 4 characters under a
    budget of 3 can be stored as 2 characters without a marker; and the
    budget is any integer of the form, so under a budget of -1 a text of
    3 characters is stored as 2 characters and the marker, not as
    [min(3, -1)] characters. *)
Lemma truncation_not_on_raw_text :
  (exists it,
      _append_if_text Samples.dead 3 [] (lit "u") [] (VStr (lit " ab "))
      = Ok (true, [it])
      /\ text_of it = lit "ab"
      /\ len (lit " ab ") > 3
      /\ len (text_of it) <> Z.min (len (lit " ab ")) 3 + 1)
  /\ (exists it,
         _append_if_text Samples.dead (-1) [] (lit "u") [] (VStr (lit "abc"))
         = Ok (true, [it])
         /\ text_of it = lit "ab" ++ [ellipsis]
         /\ len (text_of it) <> Z.min (len (lit "abc")) (-1) + 1).
Proof.
  split; eexists; (split; [vm_compute; reflexivity|]);
    vm_compute; repeat split; discriminate.
Qed.

Lemma truncated_cases (B : Z) (t : str) :
  (len t <= B -> truncated B t = t)
  /\ (0 <= B < len t -> truncated B t = firstn (Z.to_nat B) t ++ [ellipsis]).
Proof.
  unfold truncated, len. split; intros H.
  - rewrite Z.min_l by lia. rewrite Nat2Z.id, firstn_all.
    destruct (Z.ltb_spec B (Z.of_nat (length t))); [lia|]. apply app_nil_r.
  - rewrite Z.min_r by lia.
    now destruct (Z.ltb_spec B (Z.of_nat (length t))); [|lia].
Qed.

(** C2, amended: for every budget [B >= 0] and every text [t] of length
    [L] that reaches the cut (in the batch adapter and its per-page
    scrape: the extracted text stripped of surrounding whitespace; in the
    local adapter: the extracted text as it is), the stored text is the
    first [min(L, B)] characters of [t], followed by exactly one marker
    when [L > B] and by nothing when [L <= B]. *)
Theorem truncation_rule (B : Z) :
  0 <= B ->
  (forall env items url title v items',
      _append_if_text env B items url title v = Ok (true, items') ->
      exists s it,
        or_v v (VStr []) = VStr s
        /\ items' = items ++ [it]
        /\ text_of it = truncated B (strip isspace s))
  /\ (forall env items url h items' h',
         direct_one env B items url h = (Ok items', h') ->
         items' = items
         \/ exists d t it,
             trafilatura_extract env (h ++ [EvFetchUrl url]) d url = Ok (Some t)
             /\ items' = items ++ [it]
             /\ text_of it = truncated B t)
  /\ (forall t : str,
         len (truncated B t) = Z.min (len t) B + (if B <? len t then 1 else 0)
         /\ (len t <= B -> truncated B t = t)
         /\ (B < len t -> truncated B t = firstn (Z.to_nat B) t ++ [ellipsis])).
Proof.
  intros HB. split; [|split].
  - intros env items url title v items' H.
    apply append_if_text_spec in H as [t [Hs [[E _]|[_ [_ [ti E]]]]]];
      [discriminate|].
    inversion E; subst items'. unfold strip_v in Hs.
    destruct (or_v v (VStr [])) as [|s| | |]; try discriminate.
    inversion Hs; subst t. eexists s, _. split; [reflexivity|].
    split; [reflexivity|].
    rewrite mk_page_text_of. now apply slice_to_truncated.
  - intros env items url h items' h' H.
    destruct (direct_one_spec env B items url h)
      as [items1 [ext [E [_ [_ Hd]]]]].
    rewrite E in H. inversion H; subst items1.
    destruct Hd as [->|[d [title [t [Hx [_ ->]]]]]]; [now left|].
    right. eexists d, t, _. split; [exact Hx|]. split; [reflexivity|].
    rewrite mk_page_text_of. now apply slice_to_truncated.
  - intros t. split; [now apply truncated_length|].
    destruct (truncated_cases B t) as [C1 C2].
    split; [exact C1 | intros; apply C2; lia].
Qed.

Lemma truncation_rule_witness :
  exists s it,
    or_v (VStr (lit "0123456789ABCDEF")) (VStr []) = VStr s
    /\ [it] = [] ++ [it]
    /\ text_of it = lit "0123456789" ++ [ellipsis].
Proof.
  assert (HB : 0 <= 10) by lia.
  destruct (proj1 (truncation_rule 10 HB) Samples.dead [] (lit "u") []
              (VStr (lit "0123456789ABCDEF"))
              [mk_page (lit "u") (lit "host") (lit "0123456789" ++ [ellipsis])]
              eq_refl) as [s [it [Hs [Hi Ht]]]].
  exists s, it. split; [exact Hs|].
  split; [reflexivity|].
  inversion Hs; subst s. exact Ht.
Defined.

(** ** C7: the order of the returned list *)

(** C7, as stated: refuted for the batch adapter.  It walks the rows in
    the order the service returned them and never looks at the input
    list, so a service that answers in another order decides the order
    of the pages. *)
Lemma batch_order_is_row_order :
  let urls := [Samples.url_a; Samples.url_b] in
  let env := Samples.batch_rows [Samples.row Samples.url_b (lit "second");
                                 Samples.row Samples.url_a (lit "first")] in
  exists items,
    fst (firecrawl_fetch_pages_with_extract env (lit "topic") urls 8000 [])
    = Ok items
    /\ List.map url_of items = [Samples.url_b; Samples.url_a]
    /\ ~ sublist (List.map url_of items) urls.
Proof.
  eexists. split; [vm_compute; reflexivity|].
  split; [reflexivity|].
  intros H. vm_compute in H.
  apply sublist_cons_r in H as [H|[l' [E H]]].
  - apply sublist_cons_r in H as [H|[l' [E H]]].
    + apply sublist_nil_r in H. discriminate.
    + apply sublist_nil_r in H. inversion E; subst. discriminate.
  - inversion E.
Qed.

(** C7, amended: the list of the local adapter follows the input order
    (its addresses are a subsequence of the input list); the list of the
    batch adapter follows the order of the rows of the service's answer,
    hence the input order whenever the service answers in input order. *)
Theorem pages_follow_rows_or_urls :
  (forall env urls B h items h',
      direct_fetch_pages_with_trafilatura env urls B h = (Ok items, h') ->
      sublist (List.map url_of items) urls)
  /\ (forall env topic urls B h items h',
         firecrawl_fetch_pages_with_extract env topic urls B h = (Ok items, h') ->
         items = []
         \/ exists us,
             Forall2 (fun row u => row_url row = Ok u)
               (rows_of env (extract_answer env h urls)) us
             /\ sublist (List.map url_of items) us
             /\ (sublist us urls -> sublist (List.map url_of items) urls)).
Proof.
  split.
  - intros env urls B h items h' H.
    destruct (direct_spec env urls B h) as [items0 [ext [E [_ [_ [Hs _]]]]]].
    rewrite E in H. now inversion H; subst.
  - intros env topic urls B h items h' H.
    apply firecrawl_Ok in H as [_ [[_ [-> _]]|[_ [us [F2 [Hs _]]]]]];
      [now left|].
    right. exists us. split; [exact F2|]. split; [exact Hs|].
    intros Hu. now transitivity us.
Qed.

Lemma pages_follow_rows_or_urls_witness :
  let urls := [Samples.url_a; Samples.url_none; Samples.url_b] in
  exists items h',
    direct_fetch_pages_with_trafilatura Samples.patchy urls 8000 []
    = (Ok items, h')
    /\ length items = 2%nat
    /\ sublist (List.map url_of items) urls.
Proof.
  intros urls. eexists _, _. split; [vm_compute; reflexivity|].
  split; [reflexivity|].
  refine (proj1 pages_follow_rows_or_urls Samples.patchy urls 8000 [] _ _ _).
  vm_compute. reflexivity.
Defined.

(** ** The route: which calls are made *)

Lemma remote_not_fetched (ext : history) :
  Forall (fun e => is_remote e = true) ext -> fetched ext = [].
Proof.
  induction 1 as [|e ext He _ IH]; [reflexivity|].
  destruct e; try discriminate; exact IH.
Qed.

Lemma remote_not_completion (ext : history) :
  Forall (fun e => is_remote e = true) ext ->
  Forall (fun e => is_completion e = false) ext.
Proof.
  intros F. eapply Forall_impl; [exact F|]. now intros [].
Qed.

Lemma local_not_completion (ext : history) :
  Forall (fun e => is_local e = true) ext ->
  Forall (fun e => is_completion e = false) ext.
Proof.
  intros F. eapply Forall_impl; [exact F|]. now intros [].
Qed.

Lemma enhance_no_key env topic items h :
  key_missing (OPENAI_API_KEY env) = true ->
  enhance_with_openai env topic items h = (Raise missing_openai_key, h).
Proof. intros K. unfold enhance_with_openai. now rewrite K. Qed.

Lemma enhance_with_key env topic items h :
  key_missing (OPENAI_API_KEY env) = false ->
  let prompt := prompt_of topic (corpus_of (corpus_lines env items)) in
  enhance_with_openai env topic items h
  = (responses_create env h model_name prompt,
     h ++ [EvCompletion model_name prompt]).
Proof. intros K. unfold enhance_with_openai. now rewrite K. Qed.

Lemma acquire_run env topic urls B h items1 h1 :
  firecrawl_fetch_pages_with_extract env topic urls B h = (Ok items1, h1) ->
  acquire env topic urls B h
  = if is_nil items1
    then direct_fetch_pages_with_trafilatura env urls B h1
    else (Ok items1, h1).
Proof.
  intros H. unfold acquire. rewrite (bind_run _ _ _ _ _ H).
  now destruct (is_nil items1).
Qed.

Lemma acquire_raise env topic urls B h e h1 :
  firecrawl_fetch_pages_with_extract env topic urls B h = (Raise e, h1) ->
  acquire env topic urls B h = (Raise e, h1).
Proof. intros H. unfold acquire. now rewrite (bind_raise _ _ _ _ _ H). Qed.

(** The route once the form is read: a topic, and both numbers parsed. *)
Lemma research_run env form h m B :
  form_max_urls form = Ok m ->
  form_per_page_limit form = Ok B ->
  truthy (strip isspace (form_topic form)) = true ->
  let topic := strip isspace (form_topic form) in
  let urls := request_urls (strip isspace (form_urls form)) m in
  research env form h
  = bind (acquire env topic urls B)
      (fun items =>
         if is_nil items then ret (RedirectIndex no_content_msg)
         else
           bind (enhance_with_openai env topic items)
             (fun report =>
                let report_md :=
                  lit "## Enhanced Research Report" ++ nl ++ nl ++ report in
                ret (RenderResult topic (md_markdown env report_md) report_md)))
      h.
Proof.
  intros Hm HB Ht. unfold research. rewrite Hm, HB.
  unfold bind at 1 2, lift. now rewrite Ht.
Qed.

Lemma acquire_fetched env topic urls B h items1 h1 :
  firecrawl_fetch_pages_with_extract env topic urls B h = (Ok items1, h1) ->
  exists items h2,
    acquire env topic urls B h = (Ok items, h2)
    /\ fetched h2 = fetched h ++ (if is_nil items1 then urls else [])
    /\ (exists ext, h2 = h ++ ext
                    /\ Forall (fun e => is_completion e = false) ext).
Proof.
  intros H. rewrite (acquire_run _ _ _ _ _ _ _ H).
  apply firecrawl_trace in H as [ext1 [-> F1]].
  destruct (is_nil items1).
  - destruct (direct_spec env urls B (h ++ ext1))
      as [items [ext2 [E [Hf [Hl _]]]]].
    exists items, ((h ++ ext1) ++ ext2). split; [exact E|]. split.
    + rewrite !fetched_app, Hf, (remote_not_fetched _ F1). now rewrite app_nil_r.
    + exists (ext1 ++ ext2). split; [now rewrite app_assoc|].
      apply Forall_app.
      split; [now apply remote_not_completion | now apply local_not_completion].
  - exists items1, (h ++ ext1). split; [reflexivity|]. split.
    + rewrite fetched_app, (remote_not_fetched _ F1). reflexivity.
    + exists ext1. split; [reflexivity | now apply remote_not_completion].
Qed.

Lemma research_fetched env form h m B items1 h1 :
  form_max_urls form = Ok m ->
  form_per_page_limit form = Ok B ->
  truthy (strip isspace (form_topic form)) = true ->
  firecrawl_fetch_pages_with_extract env (strip isspace (form_topic form))
    (request_urls (strip isspace (form_urls form)) m) B h = (Ok items1, h1) ->
  fetched (snd (research env form h))
  = fetched h ++ (if is_nil items1
                  then request_urls (strip isspace (form_urls form)) m
                  else []).
Proof.
  intros Hm HB Ht H. rewrite (research_run _ _ _ _ _ Hm HB Ht).
  apply acquire_fetched in H as [items [h2 [E [Hf _]]]].
  rewrite (bind_run _ _ _ _ _ E).
  destruct (is_nil items); [exact Hf|].
  destruct (key_missing (OPENAI_API_KEY env)) eqn:K.
  - rewrite (bind_raise _ _ _ _ _ (enhance_no_key _ _ _ _ K)). exact Hf.
  - unfold bind. rewrite (enhance_with_key _ _ _ _ K).
    destruct (responses_create env h2 _ _); simpl;
      rewrite fetched_app, Hf; simpl; now rewrite app_nil_r.
Qed.

(** ** C3: when the local tier runs *)

(** C3: once the form is read and the first tier has returned its list,
    the local tier fetches every address of the request, in order, when
    that list is empty, and fetches nothing otherwise; with an empty
    first list the pipeline's result is the local tier's, run on the
    same addresses, and with a non-empty one it is exactly that list. *)
Theorem direct_tier_iff_first_tier_empty env form h m B items1 h1 :
  form_max_urls form = Ok m ->
  form_per_page_limit form = Ok B ->
  truthy (strip isspace (form_topic form)) = true ->
  let topic := strip isspace (form_topic form) in
  let urls := request_urls (strip isspace (form_urls form)) m in
  firecrawl_fetch_pages_with_extract env topic urls B h = (Ok items1, h1) ->
  fetched (snd (research env form h))
  = fetched h ++ (if is_nil items1 then urls else [])
  /\ (items1 = [] ->
      acquire env topic urls B h
      = direct_fetch_pages_with_trafilatura env urls B h1)
  /\ (items1 <> [] ->
      acquire env topic urls B h = (Ok items1, h1)
      /\ fetched h1 = fetched h).
Proof.
  intros Hm HB Ht topic urls H. split; [|split].
  - now apply (research_fetched env form h m B items1 h1).
  - intros ->. now rewrite (acquire_run _ _ _ _ _ _ _ H).
  - intros Hne. rewrite (acquire_run _ _ _ _ _ _ _ H).
    destruct items1; [congruence|]. split; [reflexivity|].
    apply firecrawl_trace in H as [ext [-> F]].
    rewrite fetched_app, (remote_not_fetched _ F). apply app_nil_r.
Qed.

Lemma direct_tier_iff_first_tier_empty_witness :
  fetched (snd (research Samples.local_only Samples.form_ab []))
  = [Samples.url_a; Samples.url_b].
Proof.
  exact (proj1 (direct_tier_iff_first_tier_empty Samples.local_only
                  Samples.form_ab [] 8 8000 []
                  [EvExtract [Samples.url_a; Samples.url_b]]
                  eq_refl eq_refl eq_refl eq_refl)).
Defined.

(** ** C4: nothing acquired *)

(** C4: when the first tier and then the local tier both return the
    empty list, the route flashes its failure message and redirects to
    the input form, and no completion call is made. *)
Theorem no_content_no_synthesis env form h m B h1 h2 :
  form_max_urls form = Ok m ->
  form_per_page_limit form = Ok B ->
  truthy (strip isspace (form_topic form)) = true ->
  let topic := strip isspace (form_topic form) in
  let urls := request_urls (strip isspace (form_urls form)) m in
  firecrawl_fetch_pages_with_extract env topic urls B h = (Ok [], h1) ->
  direct_fetch_pages_with_trafilatura env urls B h1 = (Ok [], h2) ->
  research env form h = (Ok (RedirectIndex no_content_msg), h2)
  /\ exists ext, h2 = h ++ ext
                 /\ Forall (fun e => is_completion e = false) ext.
Proof.
  intros Hm HB Ht topic urls H1 H2.
  rewrite (research_run _ _ _ _ _ Hm HB Ht).
  pose proof (acquire_run _ _ _ _ _ _ _ H1) as E. simpl in E.
  fold topic urls in E |- *. rewrite H2 in E.
  rewrite (bind_run _ _ _ _ _ E). split; [reflexivity|].
  apply acquire_fetched in H1 as [items [h3 [E' [_ Hx]]]].
  fold topic urls in E'. rewrite E in E'. now inversion E'; subst.
Qed.

Lemma no_content_no_synthesis_witness :
  exists h2,
    research Samples.dead Samples.form_ab []
    = (Ok (RedirectIndex no_content_msg), h2)
    /\ exists ext, h2 = [] ++ ext
                   /\ Forall (fun e => is_completion e = false) ext.
Proof.
  eexists.
  refine (no_content_no_synthesis Samples.dead Samples.form_ab [] 8 8000
            [EvExtract [Samples.url_a; Samples.url_b]] _
            eq_refl eq_refl eq_refl _ _).
  - vm_compute. reflexivity.
  - vm_compute. reflexivity.
Defined.

(** ** C9: missing keys *)

(** C9: without the extraction key the adapter raises before any call is
    made, and so does the synthesizer without the completion key; a
    request that reaches either of them ends in that exception, with
    nothing rendered and, at the synthesizer, no completion call. *)
Theorem missing_key_is_fatal :
  (forall env topic urls B h,
      key_missing (FIRECRAWL_API_KEY env) = true ->
      firecrawl_fetch_pages_with_extract env topic urls B h
      = (Raise missing_firecrawl_key, h))
  /\ (forall env topic items h,
         key_missing (OPENAI_API_KEY env) = true ->
         enhance_with_openai env topic items h = (Raise missing_openai_key, h))
  /\ (forall env form h m B,
         form_max_urls form = Ok m ->
         form_per_page_limit form = Ok B ->
         truthy (strip isspace (form_topic form)) = true ->
         key_missing (FIRECRAWL_API_KEY env) = true ->
         research env form h = (Raise missing_firecrawl_key, h))
  /\ (forall env form h m B items h1,
         form_max_urls form = Ok m ->
         form_per_page_limit form = Ok B ->
         truthy (strip isspace (form_topic form)) = true ->
         acquire env (strip isspace (form_topic form))
           (request_urls (strip isspace (form_urls form)) m) B h
         = (Ok items, h1) ->
         items <> [] ->
         key_missing (OPENAI_API_KEY env) = true ->
         research env form h = (Raise missing_openai_key, h1)).
Proof.
  split; [|split; [|split]].
  - intros. now apply firecrawl_no_key.
  - intros. now apply enhance_no_key.
  - intros env form h m B Hm HB Ht K.
    rewrite (research_run _ _ _ _ _ Hm HB Ht).
    apply bind_raise, acquire_raise. now apply firecrawl_no_key.
  - intros env form h m B items h1 Hm HB Ht E Hne K.
    rewrite (research_run _ _ _ _ _ Hm HB Ht).
    rewrite (bind_run _ _ _ _ _ E).
    destruct items; [congruence|]. simpl.
    apply bind_raise. now apply enhance_no_key.
Qed.

Lemma missing_key_is_fatal_witness :
  research Samples.no_firecrawl_key Samples.form_ab []
  = (Raise missing_firecrawl_key, [])
  /\ research Samples.no_openai_key Samples.form_ab []
     = (Raise missing_openai_key, [EvExtract [Samples.url_a; Samples.url_b]]).
Proof.
  split.
  - exact (proj1 (proj2 (proj2 missing_key_is_fatal))
             Samples.no_firecrawl_key Samples.form_ab [] 8 8000
             eq_refl eq_refl eq_refl eq_refl).
  - refine (proj2 (proj2 (proj2 missing_key_is_fatal))
              Samples.no_openai_key Samples.form_ab [] 8 8000
              [mk_page Samples.url_a (lit "host") (lit "hello world")]
              [EvExtract [Samples.url_a; Samples.url_b]]
              eq_refl eq_refl eq_refl _ _ eq_refl).
    + vm_compute. reflexivity.
    + discriminate.
Defined.

(** ** C6: the content keys of the two remote paths *)




(** ** C5: the numbers of the corpus *)

Example str_of_nat_samples :
  str_of_nat 0 = lit "0" /\ str_of_nat 7 = lit "7"
  /\ str_of_nat 10 = lit "10" /\ str_of_nat 1234 = lit "1234".
Proof. repeat split; reflexivity. Qed.


Lemma corpus_loop_cons env i it rest :
  corpus_loop env i (it :: rest)
  = if included it then block_of env i it :: corpus_loop env (S i) rest
    else corpus_loop env (S i) rest.
Proof. reflexivity. Qed.






(** * Further properties of the helpers *)

(** ** [parse_urls_csv] *)






Lemma is_sep_space (c : char) : isspace c = true -> is_sep c = true.
Proof. unfold is_sep. intros ->. apply orb_true_r. Qed.




Lemma re_split_runs_blank (sep : char -> bool) (s : str) (b : bool) :
  Forall (fun c => sep c = true) s ->
  Forall (fun t => t = []) (re_split_runs sep s [] b).
Proof.
  intros F. revert b. induction F as [|c s Hc _ IH]; intros b; simpl.
  - now repeat constructor.
  - rewrite Hc. destruct b; [apply IH | constructor; [reflexivity | apply IH]].
Qed.

(** Every token is non-empty and holds neither a comma nor whitespace;
    an input made of commas and whitespace only has no token. *)
Theorem parse_urls_csv_tokens :
  (forall raw u,
      In u (parse_urls_csv raw) ->
      u <> [] /\ Forall (fun c => c <> comma /\ isspace c = false) u)
  /\ (forall raw,
         Forall (fun c => is_sep c = true) raw -> parse_urls_csv raw = []).
Proof.
  split.
  - intros raw u Hin. unfold parse_urls_csv in Hin.
    apply List.filter_In in Hin as [Hin Ht]. split; [now apply truthy_true|].
    pose proof (re_split_runs_clean is_sep (strip isspace raw) [] false
                  (List.Forall_nil _)) as F.
    rewrite List.Forall_forall in F. specialize (F u Hin).
    eapply Forall_impl; [exact F|]. simpl. intros c Hc. unfold is_sep in Hc.
    apply orb_false_elim in Hc as [Hc Hs]. split; [|exact Hs].
    now apply N.eqb_neq.
  - intros raw F. unfold parse_urls_csv, re_split.
    pose proof (re_split_runs_blank is_sep _ false
                  (strip_Forall isspace _ raw F)) as B.
    induction B as [|t l -> _ IH]; [reflexivity | exact IH].
Qed.

Lemma parse_urls_csv_tokens_witness :
  (lit "b" <> [] /\ Forall (fun c => c <> comma /\ isspace c = false) (lit "b"))
  /\ parse_urls_csv (lit " , ,, ") = [].
Proof.
  split.
  - apply (proj1 parse_urls_csv_tokens (lit "a,, b ,")).
    vm_compute. right. left. reflexivity.
  - apply (proj2 parse_urls_csv_tokens (lit " , ,, ")).
    repeat constructor.
Defined.

(** ** [normalize_url] *)

Lemma replace_dashes_no_dash (s : str) :
  Forall (fun c => is_dash c = false) (replace_dashes s).
Proof.
  unfold replace_dashes, replace1. rewrite !map_map.
  induction s as [|c r IH]; simpl; constructor; [|exact IH].
  unfold is_dash, hyphen, en_dash, em_dash, minus_sign.
  destruct (N.eqb_spec c 8211) as [->|H1]; [reflexivity|].
  destruct (N.eqb_spec c 8212) as [->|H2]; [reflexivity|].
  destruct (N.eqb_spec c 8722) as [->|H3]; [reflexivity|].
  apply N.eqb_neq in H1, H2, H3. now rewrite ?H1, ?H2, ?H3.
Qed.

Lemma replace_dashes_fixed (s : str) :
  Forall (fun c => is_dash c = false) s -> replace_dashes s = s.
Proof.
  intros F. unfold replace_dashes, replace1. rewrite !map_map.
  induction F as [|c r Hc _ IH]; simpl; [reflexivity|]. rewrite IH. f_equal.
  unfold is_dash in Hc.
  apply orb_false_elim in Hc as [Hc H3]. apply orb_false_elim in Hc as [H1 H2].
  now rewrite H1, H2, H3.
Qed.

Lemma replace_dashes_edges (p : char -> bool) (s : str) :
  p en_dash = p hyphen -> p em_dash = p hyphen -> p minus_sign = p hyphen ->
  starts_with p s = false -> ends_with p s = false ->
  starts_with p (replace_dashes s) = false
  /\ ends_with p (replace_dashes s) = false.
Proof.
  intros H1 H2 H3 Hs He.
  rewrite <- (strip_fixed p s Hs He), <- replace_dashes_strip by assumption.
  apply strip_edges.
Qed.

(** The result of [normalize_url] holds none of the three dash variants,
    neither starts nor ends with one of the six quote characters, and is
    never longer than the input. *)
Theorem normalize_url_result (s : str) :
  Forall (fun c => c <> en_dash /\ c <> em_dash /\ c <> minus_sign)
    (normalize_url s)
  /\ starts_with is_quote (normalize_url s) = false
  /\ ends_with is_quote (normalize_url s) = false
  /\ (length (normalize_url s) <= length s)%nat.
Proof.
  split; [|split; [|split]].
  - eapply Forall_impl; [apply replace_dashes_no_dash|]. simpl.
    intros c Hc. unfold is_dash in Hc.
    apply orb_false_elim in Hc as [Hc H3]. apply orb_false_elim in Hc as [H1 H2].
    now repeat split; apply N.eqb_neq.
  - unfold normalize_url.
    destruct (strip_edges is_quote (strip isspace s)) as [Hs He].
    now apply (replace_dashes_edges is_quote).
  - unfold normalize_url.
    destruct (strip_edges is_quote (strip isspace s)) as [Hs He].
    now apply (replace_dashes_edges is_quote).
  - unfold normalize_url. rewrite replace_dashes_length.
    etransitivity; [apply strip_length | apply strip_length].
Qed.

(** A string that has nothing to clean (no whitespace or quote at either
    end, no dash variant inside) passes through unchanged. *)
Theorem normalize_url_clean (s : str) :
  starts_with isspace s = false -> ends_with isspace s = false ->
  starts_with is_quote s = false -> ends_with is_quote s = false ->
  Forall (fun c => is_dash c = false) s ->
  normalize_url s = s.
Proof.
  intros S1 S2 Q1 Q2 D. unfold normalize_url.
  rewrite (strip_fixed isspace s S1 S2), (strip_fixed is_quote s Q1 Q2).
  now apply replace_dashes_fixed.
Qed.

Lemma normalize_url_clean_witness :
  normalize_url (lit "https://a.b/c-d?q='x y'&r") = lit "https://a.b/c-d?q='x y'&r".
Proof.
  apply normalize_url_clean; first [ reflexivity | repeat constructor ].
Defined.

(** ** [sanitize_filename] *)

Section Sanitize.
Variable isalnum : char -> bool.

Lemma sanitize_map_keep (s : str) :
  Forall (fun c => keep_char isalnum c = true)
    (List.map (fun c => if keep_char isalnum c then c else underscore) s).
Proof.
  induction s as [|c r IH]; simpl; constructor; [|exact IH].
  destruct (keep_char isalnum c) eqn:E; [exact E|].
  unfold keep_char. apply orb_true_intro. now right.
Qed.

Lemma sanitize_map_fixed (s : str) :
  Forall (fun c => keep_char isalnum c = true) s ->
  List.map (fun c => if keep_char isalnum c then c else underscore) s = s.
Proof.
  induction 1 as [|c r Hc _ IH]; simpl; [reflexivity|]. now rewrite Hc, IH.
Qed.

(** The name produced is never empty: it is [report] when the stripped
    input is empty, and otherwise has the length of the stripped input,
    every character kept or replaced by an underscore, so that only
    alphanumerics and [-], [_], [.] remain. *)
Theorem sanitize_filename_result (name : str) :
  sanitize_filename isalnum name <> []
  /\ (strip isspace name = [] -> sanitize_filename isalnum name = lit "report")
  /\ (strip isspace name <> [] ->
      length (sanitize_filename isalnum name) = length (strip isspace name)
      /\ Forall (fun c => keep_char isalnum c = true)
           (sanitize_filename isalnum name)).
Proof.
  unfold sanitize_filename.
  destruct (strip isspace name) as [|c r] eqn:E.
  - split; [discriminate|]. split; [reflexivity|]. intros H. now destruct H.
  - split; [discriminate|]. split; [discriminate|]. intros _.
    change (or_str ?x (lit "report")) with x. split.
    + now rewrite length_map.
    + apply (sanitize_map_keep (c :: r)).
Qed.

(** Sanitising twice changes nothing more, as long as no alphanumeric
    character is whitespace and the letters of [report] are
    alphanumeric. *)
Theorem sanitize_filename_idempotent (name : str) :
  (forall c, isalnum c = true -> isspace c = false) ->
  Forall (fun c => isalnum c = true) (lit "report") ->
  sanitize_filename isalnum (sanitize_filename isalnum name)
  = sanitize_filename isalnum name.
Proof.
  intros Hsp Hrep.
  assert (K : Forall (fun c => keep_char isalnum c = true)
                (sanitize_filename isalnum name)).
  { destruct (sanitize_filename_result name) as [_ [H0 H1]].
    destruct (strip isspace name) as [|c r] eqn:E.
    - rewrite (H0 eq_refl). eapply Forall_impl; [exact Hrep|].
      simpl. intros c Hc. unfold keep_char. now rewrite Hc.
    - apply H1. discriminate. }
  assert (Nsp : Forall (fun c => isspace c = false)
                  (sanitize_filename isalnum name)).
  { eapply Forall_impl; [exact K|]. simpl. intros c Hc.
    unfold keep_char in Hc. apply orb_prop in Hc as [Hc|Hc]; [now apply Hsp|].
    unfold in_chars in Hc. simpl in Hc.
    repeat (apply orb_prop in Hc as [Hc|Hc];
            [apply N.eqb_eq in Hc; subst c; reflexivity|]).
    discriminate. }
  destruct (sanitize_filename_result name) as [Hne _].
  unfold sanitize_filename at 1.
  destruct (no_space_edges _ Nsp) as [Hs He].
  rewrite (strip_fixed isspace _ Hs He), (sanitize_map_fixed _ K).
  unfold or_str. now destruct (sanitize_filename isalnum name).
Qed.

End Sanitize.

Lemma sanitize_filename_result_witness :
  length (sanitize_filename Samples.ascii_alnum (lit " my report: v1.2 "))
  = length (strip isspace (lit " my report: v1.2 "))
  /\ sanitize_filename Samples.ascii_alnum (lit " my report: v1.2 ")
     = lit "my_report__v1.2".
Proof.
  split; [|reflexivity].
  apply (proj2 (proj2 (sanitize_filename_result Samples.ascii_alnum
                         (lit " my report: v1.2 ")))).
  discriminate.
Defined.

Lemma ascii_alnum_not_space (c : char) :
  Samples.ascii_alnum c = true -> isspace c = false.
Proof.
  intros Hc. assert (R : (48 <= c <= 122)%N).
  { unfold Samples.ascii_alnum in Hc.
    repeat match goal with
           | H : (_ || _)%bool = true |- _ => apply orb_prop in H as [H|H]
           | H : (_ && _)%bool = true |- _ => apply andb_prop in H as [? ?]
           | H : (_ <=? _)%N = true |- _ => apply N.leb_le in H
           end; lia. }
  unfold isspace.
  replace (c <=? 13)%N with false by (symmetry; apply N.leb_gt; lia).
  replace (c <=? 32)%N with false by (symmetry; apply N.leb_gt; lia).
  replace (8192 <=? c)%N with false by (symmetry; apply N.leb_gt; lia).
  replace (c =? 133)%N with false by (symmetry; apply N.eqb_neq; lia).
  replace (c =? 160)%N with false by (symmetry; apply N.eqb_neq; lia).
  replace (c =? 5760)%N with false by (symmetry; apply N.eqb_neq; lia).
  replace (c =? 8232)%N with false by (symmetry; apply N.eqb_neq; lia).
  replace (c =? 8233)%N with false by (symmetry; apply N.eqb_neq; lia).
  replace (c =? 8239)%N with false by (symmetry; apply N.eqb_neq; lia).
  replace (c =? 8287)%N with false by (symmetry; apply N.eqb_neq; lia).
  replace (c =? 12288)%N with false by (symmetry; apply N.eqb_neq; lia).
  now rewrite !andb_false_r.
Qed.

Lemma sanitize_filename_idempotent_witness :
  sanitize_filename Samples.ascii_alnum
    (sanitize_filename Samples.ascii_alnum (lit " a/b c "))
  = sanitize_filename Samples.ascii_alnum (lit " a/b c ").
Proof.
  apply sanitize_filename_idempotent;
    [exact ascii_alnum_not_space | repeat constructor].
Defined.

(** ** Citation numbers in decimal *)

Lemma digits_val_snoc (ds : str) (d : char) :
  digits_val (ds ++ [d]) = (10 * digits_val ds + (d - 48))%N.
Proof. unfold digits_val. now rewrite fold_left_app. Qed.

Lemma digit_char_is_digit (n : N) : (n < 10)%N -> is_digit (digit_char n) = true.
Proof.
  intros H. unfold is_digit, digit_char. apply andb_true_intro.
  split; apply N.leb_le; lia.
Qed.

Lemma decimal_pos_spec (fuel : nat) :
  forall (n : N) (acc : str),
    (n < 10 ^ N.of_nat (S fuel))%N ->
    exists ds,
      decimal_pos (S fuel) n acc = ds ++ acc
      /\ digits_val ds = n
      /\ Forall (fun c => is_digit c = true) ds
      /\ ds <> [].
Proof.
  assert (Small : forall fuel' n acc,
             (n <? 10)%N = true ->
             exists ds,
               decimal_pos (S fuel') n acc = ds ++ acc
               /\ digits_val ds = n
               /\ Forall (fun c => is_digit c = true) ds
               /\ ds <> []).
  { intros fuel' n acc E. exists [digit_char (n mod 10)].
    apply N.ltb_lt in E. simpl. rewrite (proj2 (N.ltb_lt _ _) E).
    split; [reflexivity|]. rewrite N.mod_small by exact E.
    split; [unfold digits_val, digit_char; simpl; lia|].
    split; [|discriminate].
    constructor; [now apply digit_char_is_digit | constructor]. }
  induction fuel as [|fuel IH]; intros n acc Hn.
  - apply Small. apply N.ltb_lt. simpl in Hn. lia.
  - destruct (n <? 10)%N eqn:E; [now apply Small|].
    apply N.ltb_ge in E.
    assert (Hq : (n / 10 < 10 ^ N.of_nat (S fuel))%N).
    { apply N.Div0.div_lt_upper_bound.
      replace (N.of_nat (S (S fuel))) with (N.succ (N.of_nat (S fuel))) in Hn by lia.
      now rewrite N.pow_succ_r' in Hn. }
    destruct (IH (n / 10)%N (digit_char (n mod 10) :: acc) Hq)
      as [ds [Hd [Hv [Fd _]]]].
    exists (ds ++ [digit_char (n mod 10)]).
    change (decimal_pos (S (S fuel)) n acc)
      with (if (n <? 10)%N then digit_char (n mod 10) :: acc
            else decimal_pos (S fuel) (n / 10) (digit_char (n mod 10) :: acc)).
    rewrite (proj2 (N.ltb_ge _ _) E), Hd, <- app_assoc.
    split; [reflexivity|]. split; [|split].
    + rewrite digits_val_snoc, Hv. unfold digit_char.
      replace (48 + n mod 10 - 48)%N with (n mod 10)%N
        by (now rewrite N.add_comm, N.add_sub).
      symmetry. apply N.div_mod'.
    + apply Forall_app. split; [exact Fd|].
      constructor; [|constructor]. apply digit_char_is_digit.
      apply N.mod_lt. lia.
    + intros H. apply app_eq_nil in H as [_ H]. discriminate.
Qed.

Lemma str_of_nat_spec (i : nat) :
  digits_val (str_of_nat i) = N.of_nat i
  /\ Forall (fun c => is_digit c = true) (str_of_nat i)
  /\ str_of_nat i <> [].
Proof.
  unfold str_of_nat.
  assert (H : (N.of_nat i < 10 ^ N.of_nat (S i))%N).
  { pose proof (N.pow_gt_lin_r 10 (N.of_nat (S i))). lia. }
  destruct (decimal_pos_spec i (N.of_nat i) [] H) as [ds [E [Hv [F Hne]]]].
  rewrite E, app_nil_r. auto.
Qed.

(** Two runs of digits, each followed by something that is not a digit,
    are equal when the whole strings are. *)
Lemma digits_prefix_unique (d1 d2 r1 r2 : str) (c1 c2 : char) :
  Forall (fun c => is_digit c = true) d1 ->
  Forall (fun c => is_digit c = true) d2 ->
  is_digit c1 = false -> is_digit c2 = false ->
  d1 ++ c1 :: r1 = d2 ++ c2 :: r2 -> d1 = d2.
Proof.
  intros F1. revert d2. induction F1 as [|x d1 Hx _ IH]; intros d2 F2 N1 N2 E.
  - destruct F2 as [|y d2 Hy _]; [reflexivity|].
    simpl in E. inversion E; subst. congruence.
  - destruct F2 as [|y d2 Hy F2].
    + simpl in E. inversion E; subst. congruence.
    + simpl in E. inversion E; subst. f_equal. now apply IH.
Qed.

(** The number in a block is the decimal numeral of the position: it
    reads back as that number, and a block determines its number. *)
Theorem citation_number_decimal :
  (forall i : nat,
      digits_val (str_of_nat i) = N.of_nat i
      /\ Forall (fun c => is_digit c = true) (str_of_nat i)
      /\ str_of_nat i <> [])
  /\ (forall i j : nat, str_of_nat i = str_of_nat j -> i = j)
  /\ (forall i j title url text title' url' text',
         corpus_block i title url text = corpus_block j title' url' text' ->
         i = j).
Proof.
  assert (Inj : forall i j : nat, str_of_nat i = str_of_nat j -> i = j).
  { intros i j E.
    destruct (str_of_nat_spec i) as [Hi _].
    destruct (str_of_nat_spec j) as [Hj _].
    rewrite E, Hj in Hi. lia. }
  split; [exact str_of_nat_spec|]. split; [exact Inj|].
  intros i j title url text title' url' text' E. apply Inj.
  unfold corpus_block in E. simpl in E. inversion E as [E'].
  destruct (str_of_nat_spec i) as [_ [Fi _]].
  destruct (str_of_nat_spec j) as [_ [Fj _]].
  eapply (digits_prefix_unique _ _ _ _ 93%N 93%N Fi Fj);
    [reflexivity | reflexivity | exact E'].
Qed.

Lemma citation_number_decimal_witness :
  275%nat = 275%nat /\ digits_val (str_of_nat 275) = 275%N.
Proof.
  split.
  - exact (proj1 (proj2 citation_number_decimal) 275%nat 275%nat eq_refl).
  - exact (proj1 (proj1 citation_number_decimal 275%nat)).
Defined.

(** ** The addresses of a request *)

Lemma slice_to_nonneg {A} (n : Z) (l : list A) :
  0 <= n -> slice_to n l = firstn (Z.to_nat n) l.
Proof. intros H. unfold slice_to. now destruct (Z.leb_spec 0 n); [|lia]. Qed.

Lemma slice_to_neg {A} (n : Z) (l : list A) :
  n < 0 -> slice_to n l = firstn (length l - Z.to_nat (- n)) l.
Proof.
  intros H. unfold slice_to. destruct (Z.leb_spec 0 n); [lia|].
  f_equal. lia.
Qed.

(** The addresses of a request are the normalised tokens of the form
    field, or the six defaults when there is no token, cut to the first
    [max_urls] of them, in order; a negative [max_urls] drops that many
    from the end instead. *)
Theorem request_urls_prefix (urls_csv : str) (max_urls : Z) :
  let tokens := List.map normalize_url (parse_urls_csv urls_csv) in
  let source := if is_nil tokens then default_urls else tokens in
  (0 <= max_urls ->
   request_urls urls_csv max_urls = firstn (Z.to_nat max_urls) source
   /\ len (request_urls urls_csv max_urls) = Z.min max_urls (len source))
  /\ (max_urls < 0 ->
      request_urls urls_csv max_urls
      = firstn (length source - Z.to_nat (- max_urls)) source
      /\ len (request_urls urls_csv max_urls)
         = Z.max 0 (len source + max_urls)).
Proof.
  intros tokens source.
  assert (E : request_urls urls_csv max_urls = slice_to max_urls source).
  { unfold request_urls, source. fold tokens. now destruct tokens. }
  rewrite E. unfold len. split; intros H.
  - rewrite slice_to_nonneg by exact H. split; [reflexivity|].
    rewrite length_firstn. lia.
  - rewrite slice_to_neg by exact H. split; [reflexivity|].
    rewrite length_firstn. lia.
Qed.

Lemma request_urls_prefix_witness :
  request_urls [] 3
  = [lit "https://openai.com/blog"; lit "https://huggingface.co/blog";
     lit "https://ai.googleblog.com/"]
  /\ len (request_urls (lit "a b c") (-1)) = 2.
Proof.
  split.
  - refine (proj1 (proj1 (request_urls_prefix [] 3) _)). lia.
  - refine (proj2 (proj2 (request_urls_prefix (lit "a b c") (-1)) _)). lia.
Defined.

(** * Further properties of the batch adapter *)

Lemma firecrawl_run env topic urls B h :
  key_missing (FIRECRAWL_API_KEY env) = false ->
  urls <> [] ->
  firecrawl_fetch_pages_with_extract env topic urls B h
  = for_rows env B (rows_of env (extract_answer env h urls)) []
      (h ++ [EvExtract urls]).
Proof.
  intros K Hne. unfold firecrawl_fetch_pages_with_extract, extract_answer.
  rewrite K. destruct urls as [|u us]; [now destruct Hne|].
  unfold bind, try_except, call, ret.
  now destruct (fc_extract env h (u :: us)).
Qed.

(** With the key set: no address, no call; and when the batch call fails
    or its answer holds no rows, the adapter returns the empty list
    after that one call, without scraping anything. *)
Theorem firecrawl_without_rows env topic urls B h :
  key_missing (FIRECRAWL_API_KEY env) = false ->
  (urls = [] ->
   firecrawl_fetch_pages_with_extract env topic urls B h = (Ok [], h))
  /\ (urls <> [] ->
      (exists e, fc_extract env h urls = Raise e)
      \/ rows_of env (extract_answer env h urls) = [] ->
      firecrawl_fetch_pages_with_extract env topic urls B h
      = (Ok [], h ++ [EvExtract urls])).
Proof.
  intros K. split.
  - intros ->. unfold firecrawl_fetch_pages_with_extract. now rewrite K.
  - intros Hne H. rewrite firecrawl_run by assumption.
    assert (E : rows_of env (extract_answer env h urls) = []).
    { destruct H as [[e He]|H]; [|exact H].
      unfold extract_answer. now rewrite He. }
    now rewrite E.
Qed.

Lemma firecrawl_without_rows_witness :
  firecrawl_fetch_pages_with_extract Samples.dead (lit "t")
    [Samples.url_a; Samples.url_b] 8000 []
  = (Ok [], [] ++ [EvExtract [Samples.url_a; Samples.url_b]]).
Proof.
  refine (proj2 (firecrawl_without_rows Samples.dead (lit "t")
                   [Samples.url_a; Samples.url_b] 8000 [] eq_refl) _ _).
  - discriminate.
  - left. eexists. reflexivity.
Defined.

Lemma process_row_scrape env B items row h items' h' :
  process_row env B items row h = (Ok items', h') ->
  h' = h ++ List.map EvScrape (option_list (needs_scrape row)).
Proof.
  unfold process_row, needs_scrape, bind, lift, ret, _append_if_text.
  destruct (row_url row) as [url|e]; [|discriminate].
  destruct (row_title row) as [title|e]; [|discriminate].
  destruct (strip_v (or_v (row_text row) (VStr []))) as [t|e]; [|discriminate].
  destruct (truthy url) eqn:Eu, (truthy t) eqn:Et; simpl.
  - intros H. inversion H. now rewrite app_nil_r.
  - intros H. now apply scrape_fallback_spec in H as [-> _].
  - intros H. inversion H. now rewrite app_nil_r.
  - intros H. inversion H. now rewrite app_nil_r.
Qed.

Lemma for_rows_scrape env B rows items h items' h' :
  for_rows env B rows items h = (Ok items', h') ->
  h' = h ++ List.map EvScrape (omap needs_scrape rows).
Proof.
  revert items h. induction rows as [|row rest IH]; intros items h; simpl.
  - unfold ret. intros H. inversion H. now rewrite app_nil_r.
  - intros H. apply bind_Ok in H as [it [h1 [H1 H2]]].
    apply process_row_scrape in H1. apply IH in H2. subst h1 h'.
    rewrite <- app_assoc. f_equal.
    destruct (needs_scrape row); reflexivity.
Qed.

(** When the adapter returns, its calls are the batch call and then one
    scrape for each row that has an address and no text, in row order:
    never two for a row, and none for a row with text or without
    address. *)
Theorem scrape_once_per_textless_row env topic urls B h items h' :
  urls <> [] ->
  firecrawl_fetch_pages_with_extract env topic urls B h = (Ok items, h') ->
  h' = h ++ EvExtract urls
            :: List.map EvScrape
                 (omap needs_scrape (rows_of env (extract_answer env h urls))).
Proof.
  intros Hne H.
  pose proof (firecrawl_Ok _ _ _ _ _ _ _ H) as [K _].
  rewrite firecrawl_run in H by assumption.
  apply for_rows_scrape in H. now rewrite <- app_assoc in H.
Qed.

Lemma scrape_once_per_textless_row_witness :
  exists items h',
    firecrawl_fetch_pages_with_extract
      (Samples.batch_rows [Samples.row Samples.url_a (lit "hello world");
                           Samples.row Samples.url_b []])
      (lit "topic") [Samples.url_a; Samples.url_b] 8000 [] = (Ok items, h')
    /\ h' = [EvExtract [Samples.url_a; Samples.url_b]; EvScrape Samples.url_b].
Proof.
  eexists _, _. split; [vm_compute; reflexivity|].
  refine (scrape_once_per_textless_row
            (Samples.batch_rows [Samples.row Samples.url_a (lit "hello world");
                                 Samples.row Samples.url_b []])
            (lit "topic") [Samples.url_a; Samples.url_b] 8000 [] _ _ _ _).
  - discriminate.
  - vm_compute. reflexivity.
Defined.

Lemma process_row_Ok_typed env B items row h items' h' :
  process_row env B items row h = (Ok items', h') -> well_typed_row row.
Proof.
  unfold process_row, well_typed_row, bind, lift, ret, _append_if_text.
  destruct (row_url row) as [url|e]; [|discriminate].
  destruct (row_title row) as [title|e]; [|discriminate].
  destruct (strip_v (or_v (row_text row) (VStr []))) as [t|e]; [|discriminate].
  intros _. repeat split; eauto.
Qed.

Lemma process_row_typed_Ok env B items row h :
  well_typed_row row ->
  exists items' h', process_row env B items row h = (Ok items', h').
Proof.
  intros [[url Hu] [[title Ht] [x Hx]]].
  unfold process_row, bind, lift, ret, _append_if_text.
  rewrite Hu, Ht, Hx.
  destruct (truthy url && truthy x) eqn:E; simpl; [eauto|].
  destruct (truthy url); [|eauto].
  destruct (scrape_fallback env B items url title h) as [r h1] eqn:S.
  apply scrape_fallback_spec in S as [-> [it [-> _]]]. eauto.
Qed.

Lemma for_rows_Ok_iff env B rows items h :
  (exists items' h', for_rows env B rows items h = (Ok items', h'))
  <-> Forall well_typed_row rows.
Proof.
  revert items h. induction rows as [|row rest IH]; intros items h; simpl.
  - split; [constructor | intros _; unfold ret; eauto].
  - split.
    + intros [items' [h' H]]. apply bind_Ok in H as [it [h1 [H1 H2]]].
      constructor; [now apply process_row_Ok_typed in H1|].
      apply (IH it h1). eauto.
    + intros F. inversion F as [|? ? Hrow Frest]; subst.
      destruct (process_row_typed_Ok env B items row h Hrow) as [it [h1 H1]].
      rewrite (bind_run _ _ _ _ _ H1). now apply IH.
Qed.

(** The adapter gets through its rows exactly when every value it calls
    [.strip()] on (address, title, text of a row) is a string or falsy:
    nothing a scrape does or answers makes it raise, and one row with,
    say, a number as its address makes it raise for the whole batch. *)
Theorem firecrawl_returns_iff_rows_typed env topic urls B h :
  key_missing (FIRECRAWL_API_KEY env) = false ->
  urls <> [] ->
  (exists items h',
      firecrawl_fetch_pages_with_extract env topic urls B h = (Ok items, h'))
  <-> Forall well_typed_row (rows_of env (extract_answer env h urls)).
Proof.
  intros K Hne. rewrite firecrawl_run by assumption. apply for_rows_Ok_iff.
Qed.

Lemma firecrawl_returns_iff_rows_typed_witness :
  ~ exists items h',
      firecrawl_fetch_pages_with_extract
        (Samples.batch_rows
           [Samples.row Samples.url_a (lit "hello world");
            VDict (<[lit "url" := VOther true]> ∅)])
        (lit "topic") [Samples.url_a; Samples.url_b] 8000 [] = (Ok items, h').
Proof.
  intros H.
  apply (proj1 (firecrawl_returns_iff_rows_typed
                  (Samples.batch_rows
                     [Samples.row Samples.url_a (lit "hello world");
                      VDict (<[lit "url" := VOther true]> ∅)])
                  (lit "topic") [Samples.url_a; Samples.url_b] 8000 []
                  eq_refl ltac:(discriminate))) in H.
  apply Forall_cons in H as [_ H]. apply Forall_cons in H as [[[u Hu] _] _].
  vm_compute in Hu. discriminate.
Defined.

(** The adapter returns at most one page per row of the answer, whatever
    the number of addresses asked for. *)
Theorem firecrawl_page_count env topic urls B h items h' :
  firecrawl_fetch_pages_with_extract env topic urls B h = (Ok items, h') ->
  (length items <= length (rows_of env (extract_answer env h urls)))%nat.
Proof.
  intros H.
  apply firecrawl_Ok in H as [_ [[_ [-> _]]|[_ [us [F2 [Hs _]]]]]].
  - simpl. lia.
  - apply sublist_length in Hs. rewrite length_map in Hs.
    apply Forall2_length in F2. lia.
Qed.

Lemma firecrawl_page_count_witness :
  exists items h',
    firecrawl_fetch_pages_with_extract
      (Samples.batch_rows [Samples.row Samples.url_a (lit "hello world");
                           Samples.row Samples.url_b []])
      (lit "topic") [Samples.url_a; Samples.url_b] 8000 [] = (Ok items, h')
    /\ (length items <= 2)%nat.
Proof.
  eexists _, _. split; [vm_compute; reflexivity|].
  refine (firecrawl_page_count
            (Samples.batch_rows [Samples.row Samples.url_a (lit "hello world");
                                 Samples.row Samples.url_b []])
            (lit "topic") [Samples.url_a; Samples.url_b] 8000 [] _ _ _).
  vm_compute. reflexivity.
Defined.

(** ** Titles *)









(** * Further properties of the local adapter *)

(** The local adapter never raises: whatever the fetcher and the
    extractor do, it returns a list, having asked for every address
    once, in input order, through local calls only, and holding at most
    one page per address. *)
Theorem direct_isolates_failures env urls B h :
  exists items ext,
    direct_fetch_pages_with_trafilatura env urls B h = (Ok items, h ++ ext)
    /\ fetched ext = urls
    /\ Forall (fun e => is_local e = true) ext
    /\ (length items <= length urls)%nat.
Proof.
  destruct (direct_spec env urls B h) as [items [ext [E [Hf [Hl [Hs _]]]]]].
  exists items, ext. repeat split; try assumption.
  apply sublist_length in Hs. now rewrite length_map in Hs.
Qed.

Lemma direct_one_fetch_failed env B items url h :
  fetch_failed (trafilatura_fetch_url env h url) ->
  direct_one env B items url h = (Ok items, h ++ [EvFetchUrl url]).
Proof.
  unfold fetch_failed, direct_one, try_except, bind, call, lift, ret.
  destruct (trafilatura_fetch_url env h url) as [o|e]; [|reflexivity].
  now intros ->.
Qed.

Lemma direct_loop_nothing_fetched env urls B items h :
  (forall h0 u, In u urls -> fetch_failed (trafilatura_fetch_url env h0 u)) ->
  direct_loop env B urls items h = (Ok items, h ++ List.map EvFetchUrl urls).
Proof.
  revert h. induction urls as [|u rest IH]; intros h Hf; simpl.
  - unfold ret. now rewrite app_nil_r.
  - rewrite (bind_run _ _ _ _ _
               (direct_one_fetch_failed env B items u h (Hf h u (or_introl eq_refl)))).
    rewrite IH by (intros h0 u0 Hin; apply Hf; now right).
    now rewrite <- app_assoc.
Qed.

(** When no address can be fetched (the fetcher raises or hands back
    nothing), the adapter returns the empty list and its calls are the
    fetches alone: no extraction is attempted. *)
Theorem direct_nothing_fetched env urls B h :
  (forall h0 u, In u urls -> fetch_failed (trafilatura_fetch_url env h0 u)) ->
  direct_fetch_pages_with_trafilatura env urls B h
  = (Ok [], h ++ List.map EvFetchUrl urls).
Proof. apply direct_loop_nothing_fetched. Qed.

Lemma direct_nothing_fetched_witness :
  direct_fetch_pages_with_trafilatura Samples.dead
    [Samples.url_a; Samples.url_b] 8000 []
  = (Ok [], [EvFetchUrl Samples.url_a; EvFetchUrl Samples.url_b]).
Proof.
  apply (direct_nothing_fetched Samples.dead [Samples.url_a; Samples.url_b]
           8000 []).
  intros h0 u _. exact I.
Defined.

(** * Further properties of the synthesizer *)

Lemma corpus_loop_filter env i items :
  length (corpus_loop env i items) = length (List.filter included items).
Proof.
  revert i. induction items as [|it rest IH]; intros i; [reflexivity|].
  rewrite corpus_loop_cons. simpl.
  destruct (included it); simpl; now rewrite IH.
Qed.

Lemma filter_none {A} (f : A -> bool) (l : list A) :
  List.filter f l = [] <-> Forall (fun x => f x = false) l.
Proof.
  induction l as [|x l IH]; simpl.
  - split; [constructor | reflexivity].
  - destruct (f x) eqn:E; split; intros H.
    + discriminate.
    + inversion H; subst. congruence.
    + constructor; [exact E | now apply IH].
    + inversion H; subst. now apply IH.
Qed.

(** The corpus holds one block per item with a non-empty address and a
    non-empty text; when there is none, the corpus is the placeholder
    sentence, and the completion call is still made, with that corpus in
    the prompt. *)
Theorem corpus_blocks_and_placeholder env topic items :
  length (corpus_lines env items) = length (List.filter included items)
  /\ (Forall (fun it => included it = false) items ->
      corpus_of (corpus_lines env items) = lit "No pages scraped."
      /\ (key_missing (OPENAI_API_KEY env) = false ->
          forall h,
            snd (enhance_with_openai env topic items h)
            = h ++ [EvCompletion model_name
                      (prompt_of topic (lit "No pages scraped."))])).
Proof.
  split; [apply corpus_loop_filter|]. intros F.
  assert (E : corpus_lines env items = []).
  { apply length_zero_iff_nil. unfold corpus_lines.
    rewrite corpus_loop_filter. apply filter_none in F. now rewrite F. }
  split; [now rewrite E|].
  intros K h. rewrite (enhance_with_key _ _ _ _ K). simpl. now rewrite E.
Qed.

Lemma corpus_blocks_and_placeholder_witness :
  corpus_of (corpus_lines Samples.dead [mk_page [] (lit "t") (lit "x")])
  = lit "No pages scraped.".
Proof.
  apply (proj2 (corpus_blocks_and_placeholder Samples.dead (lit "topic")
                  [mk_page [] (lit "t") (lit "x")])).
  repeat constructor.
Defined.

(** * Further properties of the route *)

(** A form that cannot be served is turned away before any call is made,
    whatever the keys: a number that does not parse raises, [max_urls]
    first; a topic that is empty once stripped is answered with the
    flash message and the redirect. *)
Theorem research_rejects_bad_form env form h :
  (forall e, form_max_urls form = Raise e -> research env form h = (Raise e, h))
  /\ (forall m e,
         form_max_urls form = Ok m ->
         form_per_page_limit form = Raise e ->
         research env form h = (Raise e, h))
  /\ (forall m B,
         form_max_urls form = Ok m ->
         form_per_page_limit form = Ok B ->
         strip isspace (form_topic form) = [] ->
         research env form h = (Ok (RedirectIndex no_topic_msg), h)).
Proof.
  unfold research, bind, lift, ret. split; [|split].
  - intros e ->. reflexivity.
  - intros m e -> ->. reflexivity.
  - intros m B -> -> ->. reflexivity.
Qed.

Lemma research_rejects_bad_form_witness :
  research Samples.no_firecrawl_key
    {| form_topic := lit "   "; form_urls := lit "a"; form_max_urls := Ok 8;
       form_per_page_limit := Ok 8000 |} []
  = (Ok (RedirectIndex no_topic_msg), []).
Proof.
  exact (proj2 (proj2 (research_rejects_bad_form Samples.no_firecrawl_key
                         {| form_topic := lit "   "; form_urls := lit "a";
                            form_max_urls := Ok 8;
                            form_per_page_limit := Ok 8000 |} []))
           8 8000 eq_refl eq_refl eq_refl).
Defined.

(** A request left without addresses (a [max_urls] of 0, for one) ends
    in the no-content message without any call, provided the extraction
    key is set. *)
Theorem research_without_urls env form h m B :
  form_max_urls form = Ok m ->
  form_per_page_limit form = Ok B ->
  truthy (strip isspace (form_topic form)) = true ->
  key_missing (FIRECRAWL_API_KEY env) = false ->
  request_urls (strip isspace (form_urls form)) m = [] ->
  research env form h = (Ok (RedirectIndex no_content_msg), h).
Proof.
  intros Hm HB Ht K E.
  rewrite (research_run _ _ _ _ _ Hm HB Ht). rewrite E.
  assert (A : acquire env (strip isspace (form_topic form)) [] B h = (Ok [], h)).
  { unfold acquire, firecrawl_fetch_pages_with_extract. rewrite K. reflexivity. }
  now rewrite (bind_run _ _ _ _ _ A).
Qed.

Lemma research_without_urls_witness :
  research Samples.local_only
    {| form_topic := lit "AI"; form_urls := lit "a b"; form_max_urls := Ok 0;
       form_per_page_limit := Ok 8000 |} []
  = (Ok (RedirectIndex no_content_msg), []).
Proof.
  exact (research_without_urls Samples.local_only
           {| form_topic := lit "AI"; form_urls := lit "a b";
              form_max_urls := Ok 0; form_per_page_limit := Ok 8000 |}
           [] 0 8000 eq_refl eq_refl eq_refl eq_refl eq_refl).
Defined.

(** Once pages are acquired and the completion key is set, the route
    makes one completion call; its answer, under the fixed heading, is
    the Markdown of the rendered report, and an exception of the call is
    the outcome of the request. *)
Theorem research_renders_or_propagates env form h m B items h1 :
  form_max_urls form = Ok m ->
  form_per_page_limit form = Ok B ->
  truthy (strip isspace (form_topic form)) = true ->
  let topic := strip isspace (form_topic form) in
  let urls := request_urls (strip isspace (form_urls form)) m in
  let prompt := prompt_of topic (corpus_of (corpus_lines env items)) in
  acquire env topic urls B h = (Ok items, h1) ->
  items <> [] ->
  key_missing (OPENAI_API_KEY env) = false ->
  (forall report,
      responses_create env h1 model_name prompt = Ok report ->
      let report_md := lit "## Enhanced Research Report" ++ nl ++ nl ++ report in
      research env form h
      = (Ok (RenderResult topic (md_markdown env report_md) report_md),
         h1 ++ [EvCompletion model_name prompt]))
  /\ (forall e,
         responses_create env h1 model_name prompt = Raise e ->
         research env form h = (Raise e, h1 ++ [EvCompletion model_name prompt])).
Proof.
  intros Hm HB Ht topic urls prompt A Hne K.
  rewrite (research_run _ _ _ _ _ Hm HB Ht).
  fold topic urls. rewrite (bind_run _ _ _ _ _ A).
  destruct items as [|it rest]; [now destruct Hne|].
  cbn [is_nil]. unfold bind. rewrite (enhance_with_key _ _ _ _ K).
  fold prompt. split.
  - intros report ->. reflexivity.
  - intros e ->. reflexivity.
Qed.

Lemma research_renders_or_propagates_witness :
  research (Samples.batch_rows [Samples.row Samples.url_a (lit "hello world")])
    Samples.form_ab []
  = (Ok (RenderResult (lit "AI")
           (lit "## Enhanced Research Report" ++ nl ++ nl ++ lit "report")
           (lit "## Enhanced Research Report" ++ nl ++ nl ++ lit "report")),
     [EvExtract [Samples.url_a; Samples.url_b]]
       ++ [EvCompletion model_name
             (prompt_of (lit "AI")
                (corpus_of
                   (corpus_lines
                      (Samples.batch_rows
                         [Samples.row Samples.url_a (lit "hello world")])
                      [mk_page Samples.url_a (lit "host") (lit "hello world")])))]).
Proof.
  refine (proj1 (research_renders_or_propagates
                   (Samples.batch_rows
                      [Samples.row Samples.url_a (lit "hello world")])
                   Samples.form_ab [] 8 8000
                   [mk_page Samples.url_a (lit "host") (lit "hello world")]
                   [EvExtract [Samples.url_a; Samples.url_b]]
                   eq_refl eq_refl eq_refl _ _ eq_refl) (lit "report") eq_refl).
  - vm_compute. reflexivity.
  - discriminate.
Defined.

(** The calls of a request come in the order of the tiers: remote calls
    (the batch call and its scrapes), then local ones (fetching and
    extracting), then at most one completion call; this holds for every
    form and every behaviour of the collaborators. *)
Theorem research_call_order env form h :
  exists remote local completion,
    snd (research env form h) = h ++ remote ++ local ++ completion
    /\ Forall (fun e => is_remote e = true) remote
    /\ Forall (fun e => is_local e = true) local
    /\ at_most_one_completion completion.
Proof.
  assert (Nothing : exists remote local completion,
             h = h ++ remote ++ local ++ completion
             /\ Forall (fun e => is_remote e = true) remote
             /\ Forall (fun e => is_local e = true) local
             /\ at_most_one_completion completion).
  { exists [], [], []. rewrite app_nil_r.
    repeat split; try constructor. reflexivity. }
  destruct (form_max_urls form) as [m|e] eqn:Hm;
    [|now rewrite (proj1 (research_rejects_bad_form env form h) e Hm)].
  destruct (form_per_page_limit form) as [B|e] eqn:HB;
    [|now rewrite (proj1 (proj2 (research_rejects_bad_form env form h)) m e Hm HB)].
  destruct (truthy (strip isspace (form_topic form))) eqn:Ht.
  2:{ rewrite (proj2 (proj2 (research_rejects_bad_form env form h)) m B Hm HB);
        [exact Nothing | now destruct (strip isspace (form_topic form))]. }
  rewrite (research_run _ _ _ _ _ Hm HB Ht).
  set (topic := strip isspace (form_topic form)).
  set (urls := request_urls (strip isspace (form_urls form)) m).
  destruct (firecrawl_fetch_pages_with_extract env topic urls B h)
    as [[items1|e] h1] eqn:F.
  2:{ rewrite (bind_raise _ _ _ _ _ (acquire_raise _ _ _ _ _ _ _ F)).
      apply firecrawl_trace in F as [R [-> FR]].
      exists R, [], []. rewrite !app_nil_r.
      repeat split; try constructor; try assumption. reflexivity. }
  pose proof (acquire_run _ _ _ _ _ _ _ F) as A.
  apply firecrawl_trace in F as [R [-> FR]].
  assert (Tail : forall items L,
             Forall (fun e => is_local e = true) L ->
             acquire env topic urls B h = (Ok items, (h ++ R) ++ L) ->
             exists remote local completion,
               snd (bind (acquire env topic urls B)
                      (fun items =>
                         if is_nil items then ret (RedirectIndex no_content_msg)
                         else
                           bind (enhance_with_openai env topic items)
                             (fun report =>
                                let report_md :=
                                  lit "## Enhanced Research Report" ++ nl ++ nl
                                    ++ report in
                                ret (RenderResult topic
                                       (md_markdown env report_md) report_md)))
                      h)
               = h ++ remote ++ local ++ completion
               /\ Forall (fun e => is_remote e = true) remote
               /\ Forall (fun e => is_local e = true) local
               /\ at_most_one_completion completion).
  { intros items L FL E. rewrite (bind_run _ _ _ _ _ E).
    destruct (is_nil items).
    - exists R, L, []. rewrite app_nil_r, app_assoc.
      repeat split; try assumption. now left.
    - destruct (key_missing (OPENAI_API_KEY env)) eqn:K.
      + rewrite (bind_raise _ _ _ _ _ (enhance_no_key _ _ _ _ K)).
        exists R, L, []. rewrite app_nil_r, app_assoc.
        repeat split; try assumption. now left.
      + unfold bind. rewrite (enhance_with_key _ _ _ _ K).
        eexists R, L, [EvCompletion model_name _].
        split; [|repeat split; try assumption; right; eauto].
        destruct (responses_create env _ _ _); simpl;
          now rewrite <- !app_assoc. }
  destruct (is_nil items1).
  - destruct (direct_spec env urls B (h ++ R)) as [items [L [E [_ [FL _]]]]].
    rewrite E in A. now apply (Tail items L).
  - apply (Tail items1 []); [constructor | now rewrite app_nil_r].
Qed.
